(** * The search popover of gnome-terminal: pattern cache and search history

    A shallow embedding of [src/terminal-search-popover.c].  The popover's
    private structure, the process-wide history store and the GTK+ setting it
    consults are explicit state; the calls the C code makes into the regex
    engine, the GObject signal system and the list store are recorded, in
    program order, in a trace of events. *)

From Stdlib Require Import Bool List String Ascii ZArith Lia.
Import ListNotations.

Local Open Scope string_scope.
Local Open Scope list_scope.
Local Open Scope Z_scope.

(** ** GLib string helpers

    These functions belong to GLib, not to the terminal.  They are modelled
    after the GLib reference manual; a C string is a Rocq [string] (the
    terminating NUL is implicit), a nullable [char *] is an [option string]. *)

Module GLib.

(** [g_utf8_skip]: bytes taken by the UTF-8 sequence that a lead byte opens. *)
Definition g_utf8_skip (c : ascii) : nat :=
  let n := nat_of_ascii c in
  if (n <? 192)%nat then 1%nat
  else if (n <? 224)%nat then 2%nat
  else if (n <? 240)%nat then 3%nat
  else if (n <? 248)%nat then 4%nat
  else if (n <? 252)%nat then 5%nat
  else if (n <? 254)%nat then 6%nat
  else 1%nat.

(** The walk of [g_utf8_strlen (p, -1)]: [pending] bytes of the current
    sequence are still to be stepped over. *)
Fixpoint utf8_walk (pending : nat) (p : string) : Z :=
  match p with
  | EmptyString => 0
  | String c rest =>
      match pending with
      | O => 1 + utf8_walk (g_utf8_skip c - 1) rest
      | S k => utf8_walk k rest
      end
  end.

Definition g_utf8_strlen (p : string) : Z := utf8_walk 0 p.

(** [strcmp], reduced to the sign of its result. *)
Definition strcmp (a b : string) : Z :=
  match String.compare a b with
  | Eq => 0
  | Lt => -1
  | Gt => 1
  end.

(** [g_strcmp0]: [strcmp] that accepts NULL, which sorts before any string. *)
Definition g_strcmp0 (a b : option string) : Z :=
  match a, b with
  | None, None => 0
  | None, Some _ => -1
  | Some _, None => 1
  | Some x, Some y => strcmp x y
  end.

(** The characters [g_regex_escape_string] protects with a backslash. *)
Definition regex_special (c : ascii) : bool :=
  existsb (Ascii.eqb c)
    ["\"; "|"; "("; ")"; "["; "]"; "{"; "}"; "^"; "$"; "*"; "+"; "?"; "."]%char.

Fixpoint g_regex_escape_string (s : string) : string :=
  match s with
  | EmptyString => EmptyString
  | String c rest =>
      if regex_special c
      then String "\"%char (String c (g_regex_escape_string rest))
      else String c (g_regex_escape_string rest)
  end.

End GLib.

Import GLib.

(** ** Constants of the popover *)

Definition HISTORY_MIN_ITEM_LEN : Z := 3.
Definition HISTORY_LENGTH : Z := 10.

Inductive PropId := PROP_REGEX | PROP_WRAP_AROUND.
Inductive SignalId := SEARCH.

(** Flags handed to the regex engine.  The numeric values live in the
    engines' headers; only the set that is or-ed together matters here. *)
Inductive CompileFlag :=
| UTF | NO_UTF_CHECK | OPTIMIZE | CASELESS | MULTILINE.

(** A [GtkListStore] with one [G_TYPE_STRING] column: the rows in order, a
    row's value possibly NULL.  An iterator is the position of a row. *)
Definition GtkListStore := list (option string).
Definition GtkTreeIter := nat.

(** The process-wide state: the static [history_store] and the
    [gtk-recent-files-enabled] setting of the default [GtkSettings]. *)
Record Global := mkGlobal {
  gtk_recent_files_enabled : bool;
  history_store : option GtkListStore
}.

Definition set_history_store (s : option GtkListStore) (g : Global) : Global :=
  {| gtk_recent_files_enabled := gtk_recent_files_enabled g;
     history_store := s |}.

(** The rows of the history store; none while it has not been created. *)
Definition history_rows (g : Global) : GtkListStore :=
  match history_store g with
  | Some rows => rows
  | None => []
  end.

Section Popover.

(** The compiled matcher ([VteRegex] or [GRegex]) and [GError] are opaque. *)
Variables Regex GError : Type.

(** ** Events *)

Inductive Event :=
| RegexNew (pattern : string) (compile_flags : list CompileFlag)
| RegexUnref (regex : Regex)
| Notify (pspec : PropId)
| SignalEmit (signal : SignalId) (backward : bool)
| RowDeleted (iter : GtkTreeIter)
| RowInserted (position : nat) (text : option string)
| WidgetHide.

(** ** State and trace monad *)

Definition M (S A : Type) : Type := S -> A * S * list Event.

Definition ret {S A} (a : A) : M S A := fun s => (a, s, []).

Definition bind {S A B} (m : M S A) (k : A -> M S B) : M S B :=
  fun s =>
    let '(a, s1, t1) := m s in
    let '(b, s2, t2) := k a s1 in
    (b, s2, t1 ++ t2).

Definition get {S} : M S S := fun s => (s, s, []).
Definition put {S} (s : S) : M S unit := fun _ => (tt, s, []).
Definition emit {S} (e : Event) : M S unit := fun s => (tt, s, [e]).

Definition result {S A} (r : A * S * list Event) : A := fst (fst r).
Definition state {S A} (r : A * S * list Event) : S := snd (fst r).
Definition trace {S A} (r : A * S * list Event) : list Event := snd r.

Notation "x <- m ;; k" := (bind m (fun x => k))
  (at level 61, m at next level, right associativity).
Notation "m ;;; k" := (bind m (fun _ => k))
  (at level 61, right associativity).

(** ** The list store (GTK+) *)

Definition remove_row (iter : GtkTreeIter) (rows : GtkListStore) : GtkListStore :=
  firstn iter rows ++ skipn (S iter) rows.

(** [gtk_tree_model_get_iter] for a one-index path: there is an iterator
    exactly when the index names a row. *)
Definition gtk_tree_model_get_iter (rows : GtkListStore) (index : Z)
  : option GtkTreeIter :=
  if (0 <=? index) && (index <? Z.of_nat (List.length rows))
  then Some (Z.to_nat index) else None.

(** [gtk_list_store_remove]: deletes the row, signals [row-deleted], moves
    the iterator to the next row and tells whether there is one. *)
Definition gtk_list_store_remove (iter : GtkTreeIter) : M Global bool :=
  g <- get ;;
  let rows := history_rows g in
  put (set_history_store (Some (remove_row iter rows)) g) ;;;
  emit (RowDeleted iter) ;;;
  ret (S iter <? List.length rows)%nat.

(** [gtk_list_store_insert_with_values]: a position past the end appends. *)
Definition gtk_list_store_insert_with_values (position : nat) (text : option string)
  : M Global unit :=
  g <- get ;;
  let rows := history_rows g in
  let position := Nat.min position (List.length rows) in
  put (set_history_store (Some (firstn position rows ++ text :: skipn position rows)) g) ;;;
  emit (RowInserted position text).

(** ** History *)

Definition history_enabled : M Global bool :=
  g <- get ;;
  let enabled := gtk_recent_files_enabled g in
  if negb enabled then ret false
  else
    (match history_store g with
     | None => put (set_history_store (Some []) g)
     | Some _ => ret tt
     end) ;;;
    ret true.

(** The do-while of [history_remove_item]: the first row, from [iter] on,
    whose text is not NULL and compares equal to [text]. *)
Fixpoint history_find (text : string) (rows : GtkListStore) (iter : GtkTreeIter)
  : option GtkTreeIter :=
  match rows with
  | [] => None
  | item_text :: rest =>
      if match item_text with
         | Some s => strcmp s text =? 0
         | None => false
         end
      then Some iter
      else history_find text rest (S iter)
  end.

Definition history_remove_item (text : string) : M Global bool :=
  g <- get ;;
  match history_find text (history_rows g) 0%nat with
  | Some iter => gtk_list_store_remove iter ;;; ret true
  | None => ret false
  end.

(** [while (1) if (!gtk_list_store_remove (history_store, &iter)) break;]
    Each round deletes a row, so the number of rows bounds the rounds. *)
Fixpoint history_clamp_loop (rounds : nat) (iter : GtkTreeIter) : M Global unit :=
  match rounds with
  | O => ret tt
  | S rounds' =>
      valid <- gtk_list_store_remove iter ;;
      if valid then history_clamp_loop rounds' iter else ret tt
  end.

Definition history_clamp (max : Z) : M Global unit :=
  g <- get ;;
  let rows := history_rows g in
  (* -1 because TreePath counts from 0 *)
  match gtk_tree_model_get_iter rows (max - 1) with
  | Some iter => history_clamp_loop (List.length rows) iter
  | None => ret tt
  end.

Definition history_insert_item (text : option string) : M Global unit :=
  enabled <- history_enabled ;;
  match enabled, text with
  | true, Some s =>
      if g_utf8_strlen s <=? HISTORY_MIN_ITEM_LEN then ret tt
      else
        removed <- history_remove_item s ;;
        (if negb removed then history_clamp (HISTORY_LENGTH - 1) else ret tt) ;;;
        gtk_list_store_insert_with_values 0%nat text
  | _, _ => ret tt
  end.

(** ** The popover *)

(** [TerminalSearchPopoverPrivate].  A widget is represented by the part of
    its state the code reads or writes: the text of the entry, the [active]
    state of a check button, the [sensitive] state of a search button. *)
Record TerminalSearchPopoverPrivate := mkPriv {
  search_entry : string;
  search_prev_button : bool;
  search_next_button : bool;
  match_case_checkbutton : bool;
  entire_word_checkbutton : bool;
  regex_checkbutton : bool;
  wrap_around_checkbutton : bool;
  search_text_changed : bool;
  (* Cached regex *)
  regex_caseless : bool;
  regex_multiline : bool;
  regex_pattern : option string;
  regex : option Regex
}.

Record World := mkWorld {
  priv : TerminalSearchPopoverPrivate;
  global : Global
}.

Definition with_global {A} (m : M Global A) : M World A :=
  fun w =>
    let '(a, g, t) := m (global w) in
    (a, mkWorld (priv w) g, t).

Definition get_priv : M World TerminalSearchPopoverPrivate :=
  fun w => (priv w, w, []).

Definition modify_priv (f : TerminalSearchPopoverPrivate -> TerminalSearchPopoverPrivate)
  : M World unit :=
  fun w => (tt, mkWorld (f (priv w)) (global w), []).

Definition set_search_entry (v : string) (p : TerminalSearchPopoverPrivate) :=
  mkPriv v (search_prev_button p) (search_next_button p)
         (match_case_checkbutton p) (entire_word_checkbutton p)
         (regex_checkbutton p) (wrap_around_checkbutton p)
         (search_text_changed p) (regex_caseless p) (regex_multiline p)
         (regex_pattern p) (regex p).

Definition set_sensitive (prev next : bool) (p : TerminalSearchPopoverPrivate) :=
  mkPriv (search_entry p) prev next
         (match_case_checkbutton p) (entire_word_checkbutton p)
         (regex_checkbutton p) (wrap_around_checkbutton p)
         (search_text_changed p) (regex_caseless p) (regex_multiline p)
         (regex_pattern p) (regex p).

Definition set_toggles (match_case entire_word use_regex wrap_around : bool)
  (p : TerminalSearchPopoverPrivate) :=
  mkPriv (search_entry p) (search_prev_button p) (search_next_button p)
         match_case entire_word use_regex wrap_around
         (search_text_changed p) (regex_caseless p) (regex_multiline p)
         (regex_pattern p) (regex p).

Definition set_search_text_changed (v : bool) (p : TerminalSearchPopoverPrivate) :=
  mkPriv (search_entry p) (search_prev_button p) (search_next_button p)
         (match_case_checkbutton p) (entire_word_checkbutton p)
         (regex_checkbutton p) (wrap_around_checkbutton p)
         v (regex_caseless p) (regex_multiline p)
         (regex_pattern p) (regex p).

Definition set_regex_flags (caseless multiline : bool) (p : TerminalSearchPopoverPrivate) :=
  mkPriv (search_entry p) (search_prev_button p) (search_next_button p)
         (match_case_checkbutton p) (entire_word_checkbutton p)
         (regex_checkbutton p) (wrap_around_checkbutton p)
         (search_text_changed p) caseless multiline
         (regex_pattern p) (regex p).

Definition set_regex_pattern (v : option string) (p : TerminalSearchPopoverPrivate) :=
  mkPriv (search_entry p) (search_prev_button p) (search_next_button p)
         (match_case_checkbutton p) (entire_word_checkbutton p)
         (regex_checkbutton p) (wrap_around_checkbutton p)
         (search_text_changed p) (regex_caseless p) (regex_multiline p)
         v (regex p).

Definition set_regex (v : option Regex) (p : TerminalSearchPopoverPrivate) :=
  mkPriv (search_entry p) (search_prev_button p) (search_next_button p)
         (match_case_checkbutton p) (entire_word_checkbutton p)
         (regex_checkbutton p) (wrap_around_checkbutton p)
         (search_text_changed p) (regex_caseless p) (regex_multiline p)
         (regex_pattern p) v.

(** *** Helper functions *)

Definition update_sensitivity : M World unit :=
  p <- get_priv ;;
  let can_search := match regex p with Some _ => true | None => false end in
  modify_priv (set_sensitive can_search can_search).

Definition perform_search (backward : bool) : M World unit :=
  p <- get_priv ;;
  match regex p with
  | None => ret tt
  | Some _ =>
      (* Add to search history *)
      (if search_text_changed p
       then
         with_global (history_insert_item (Some (search_entry p))) ;;;
         modify_priv (set_search_text_changed false)
       else ret tt) ;;;
      emit (SignalEmit SEARCH backward)
  end.

(** *** The regex engine

    [WITH_PCRE2] selects [vte_regex_new] over [g_regex_new]; either way the
    engine is a function of the pattern and the flags that yields a compiled
    matcher or an error.  The [vte_regex_jit] calls that follow a successful
    [vte_regex_new] tune the matcher in place and their outcome is ignored
    (the [if] has an empty body); they leave no mark here. *)
Variable WITH_PCRE2 : bool.
Variable regex_new : string -> list CompileFlag -> Regex + GError.

Definition compile_flags (caseless multiline : bool) : list CompileFlag :=
  let flags := if WITH_PCRE2 then [UTF; NO_UTF_CHECK] else [OPTIMIZE] in
  let flags := if caseless then flags ++ [CASELESS] else flags in
  let flags := if multiline then flags ++ [MULTILINE] else flags in
  flags.

(** The first part of [update_regex]: what the widgets say right now. *)
Definition derive_regex (p : TerminalSearchPopoverPrivate) : string * bool * bool :=
  let search_text := search_entry p in
  let caseless := negb (match_case_checkbutton p) in
  let '(pattern, multiline) :=
    if regex_checkbutton p
    then (search_text, true)
    else (g_regex_escape_string search_text, false) in
  let pattern :=
    if entire_word_checkbutton p
    then ("\b" ++ pattern ++ "\b")%string
    else pattern in
  (pattern, caseless, multiline).

(** The test that guards the early return of [update_regex]. *)
Definition regex_is_cached (p : TerminalSearchPopoverPrivate)
  (pattern : string) (caseless multiline : bool) : bool :=
  Bool.eqb (regex_caseless p) caseless &&
  Bool.eqb (regex_multiline p) multiline &&
  (g_strcmp0 (regex_pattern p) (Some pattern) =? 0).

Definition update_regex : M World unit :=
  p <- get_priv ;;
  let search_text := search_entry p in
  let '(pattern, caseless, multiline) := derive_regex p in
  if regex_is_cached p pattern caseless multiline
  then ret tt
  else
    (match regex p with
     | Some r => emit (RegexUnref r)
     | None => ret tt
     end) ;;;
    modify_priv (set_regex_pattern None) ;;;
    (* FIXME: if comping the regex fails, show the error message somewhere *)
    (match search_text with
     | String _ _ =>
         let flags := compile_flags caseless multiline in
         emit (RegexNew pattern flags) ;;;
         match regex_new pattern flags with
         | inl r =>
             modify_priv (set_regex (Some r)) ;;;
             modify_priv (set_regex_pattern (Some pattern))
         | inr error =>
             modify_priv (set_regex None)
         end
     | EmptyString => modify_priv (set_regex None)
     end) ;;;
    update_sensitivity ;;;
    emit (Notify PROP_REGEX).

(** *** Signal handlers *)

Definition previous_match_cb : M World unit := perform_search true.
Definition next_match_cb : M World unit := perform_search false.
Definition close_clicked_cb : M World unit := emit WidgetHide.

(** [button == priv->search_prev_button] *)
Definition search_button_clicked_cb (button_is_prev : bool) : M World unit :=
  perform_search button_is_prev.

Definition search_text_changed_cb : M World unit :=
  update_regex ;;;
  modify_priv (set_search_text_changed true).

Definition search_parameters_changed_cb : M World unit := update_regex.

Definition wrap_around_toggled_cb : M World unit := emit (Notify PROP_WRAP_AROUND).

(** *** Instance initialisation

    The instance-private block is zero-filled when allocated; the template
    [search-popover.ui] builds the widgets, whose check buttons start in
    the state it prescribes and whose entry starts empty.  The handlers are
    connected last, so nothing runs [update_regex] before the first event. *)
Definition template_priv (match_case entire_word use_regex wrap_around : bool)
  : TerminalSearchPopoverPrivate :=
  mkPriv "" true true match_case entire_word use_regex wrap_around
         false false false None None.

Definition terminal_search_popover_init : M World unit :=
  modify_priv (set_regex_pattern None) ;;;
  modify_priv (set_regex_flags false false) ;;;
  with_global history_enabled ;;;
  update_sensitivity.

Definition terminal_search_popover_get_regex (w : World) : option Regex :=
  regex (priv w).

Definition terminal_search_popover_get_wrap_around (w : World) : bool :=
  wrap_around_checkbutton (priv w).

(** *** Finalisation and the property interface

    [terminal_search_popover_finalize] drops the matcher, frees the cached
    pattern and chains up; the fields are not reset, the instance is gone
    afterwards. *)
Definition terminal_search_popover_finalize : M World unit :=
  p <- get_priv ;;
  match regex p with
  | Some r => emit (RegexUnref r)
  | None => ret tt
  end.

(** The [enum] of property ids: [PROP_0], [PROP_REGEX], [PROP_WRAP_AROUND],
    [LAST_PROP]. *)
Definition PROP_0 : Z := 0.
Definition LAST_PROP : Z := 3.

Definition prop_number (p : PropId) : Z :=
  match p with
  | PROP_REGEX => 1
  | PROP_WRAP_AROUND => 2
  end.

(** A [GValue], as far as the two properties fill one. *)
Inductive GValue :=
| GBoxed (boxed : option Regex)
| GBoolean (b : bool).

(** [terminal_search_popover_get_property]: the value set, or nothing when
    the id falls to [G_OBJECT_WARN_INVALID_PROPERTY_ID]. *)
Definition terminal_search_popover_get_property (prop_id : Z) (w : World)
  : option GValue :=
  if prop_id =? prop_number PROP_REGEX
  then Some (GBoxed (terminal_search_popover_get_regex w))
  else if prop_id =? prop_number PROP_WRAP_AROUND
  then Some (GBoolean (terminal_search_popover_get_wrap_around w))
  else None.

(** [terminal_search_popover_set_property]: neither property is writable;
    the result tells whether the id was known (no warning). *)
Definition terminal_search_popover_set_property (prop_id : Z) (value : GValue)
  (w : World) : bool * World :=
  if (prop_id =? prop_number PROP_REGEX) || (prop_id =? prop_number PROP_WRAP_AROUND)
  then (true, w)
  else (false, w).

(** *** What can happen to a popover

    GTK+ changes a widget first and runs the connected handler afterwards:
    a check button flips and emits [toggled]; the entry's text changes, and
    [search-changed] follows on its own schedule. *)
Inductive UiEvent :=
| EntryEdited (text : string)
| SearchChanged
| MatchCaseToggled
| EntireWordToggled
| RegexToggled
| WrapAroundToggled
| PreviousMatch
| NextMatch
| PrevButtonClicked
| NextButtonClicked
| CloseClicked
| RecentFilesEnabled (enabled : bool).

Definition flip_toggle (e : UiEvent) (p : TerminalSearchPopoverPrivate) :=
  let mc := match_case_checkbutton p in
  let ew := entire_word_checkbutton p in
  let rx := regex_checkbutton p in
  let wa := wrap_around_checkbutton p in
  match e with
  | MatchCaseToggled => set_toggles (negb mc) ew rx wa p
  | EntireWordToggled => set_toggles mc (negb ew) rx wa p
  | RegexToggled => set_toggles mc ew (negb rx) wa p
  | WrapAroundToggled => set_toggles mc ew rx (negb wa) p
  | _ => p
  end.

Definition handle (e : UiEvent) : M World unit :=
  match e with
  | EntryEdited text => modify_priv (set_search_entry text)
  | SearchChanged => search_text_changed_cb
  | MatchCaseToggled | EntireWordToggled | RegexToggled =>
      modify_priv (flip_toggle e) ;;; search_parameters_changed_cb
  | WrapAroundToggled =>
      modify_priv (flip_toggle e) ;;; wrap_around_toggled_cb
  | PreviousMatch => previous_match_cb
  | NextMatch => next_match_cb
  | PrevButtonClicked => search_button_clicked_cb true
  | NextButtonClicked => search_button_clicked_cb false
  | CloseClicked => close_clicked_cb
  | RecentFilesEnabled enabled =>
      fun w => (tt, mkWorld (priv w)
                            (mkGlobal enabled (history_store (global w))), [])
  end.

Fixpoint handle_all (es : list UiEvent) : M World unit :=
  match es with
  | [] => ret tt
  | e :: es' => handle e ;;; handle_all es'
  end.

(** A popover created at process start, once its instance initialiser ran. *)
Definition fresh_world (match_case entire_word use_regex wrap_around enabled : bool)
  : World :=
  state (terminal_search_popover_init
           (mkWorld (template_priv match_case entire_word use_regex wrap_around)
                    (mkGlobal enabled None))).

End Popover.

Arguments ret {Regex S A}.
Arguments bind {Regex S A B}.
Arguments result {Regex S A}.
Arguments state {Regex S A}.
Arguments trace {Regex S A}.
Arguments search_entry {Regex}.
Arguments search_prev_button {Regex}.
Arguments search_next_button {Regex}.
Arguments match_case_checkbutton {Regex}.
Arguments entire_word_checkbutton {Regex}.
Arguments regex_checkbutton {Regex}.
Arguments wrap_around_checkbutton {Regex}.
Arguments search_text_changed {Regex}.
Arguments regex_caseless {Regex}.
Arguments regex_multiline {Regex}.
Arguments regex_pattern {Regex}.
Arguments regex {Regex}.
Arguments priv {Regex}.
Arguments global {Regex}.
Arguments mkWorld {Regex}.
Arguments mkPriv {Regex}.
Arguments set_search_entry {Regex}.
Arguments set_sensitive {Regex}.
Arguments set_toggles {Regex}.
Arguments set_search_text_changed {Regex}.
Arguments set_regex_flags {Regex}.
Arguments set_regex_pattern {Regex}.
Arguments set_regex {Regex}.
Arguments flip_toggle {Regex}.
Arguments GBoxed {Regex}.
Arguments GBoolean {Regex}.

Notation "x <- m ;; k" := (bind m (fun x => k))
  (at level 61, m at next level, right associativity).
Notation "m ;;; k" := (bind m (fun _ => k))
  (at level 61, right associativity).

(** ** A stand-in engine for worked examples

    The compiled matcher records the pattern and flags it was compiled
    from; a pattern whose parentheses do not balance is rejected. *)
Module Demo.

Definition Regex : Type := string * list CompileFlag.
Definition GError : Type := string.

Fixpoint paren_depth (depth : nat) (s : string) : option nat :=
  match s with
  | EmptyString => Some depth
  | String c rest =>
      if Ascii.eqb c "("%char then paren_depth (S depth) rest
      else if Ascii.eqb c ")"%char then
        match depth with
        | O => None
        | S d => paren_depth d rest
        end
      else paren_depth depth rest
  end.

Definition regex_new (pattern : string) (flags : list CompileFlag)
  : Regex + GError :=
  match paren_depth 0 pattern with
  | Some O => inl (pattern, flags)
  | _ => inr "unbalanced parentheses"
  end.

(** An engine of another make: it refuses everything, with a number. *)
Definition refuse_all (pattern : string) (flags : list CompileFlag)
  : Regex + nat := inr 101%nat.

Definition World := World Regex.
Definition handle_all (es : list UiEvent) : M Regex World unit :=
  handle_all Regex GError false regex_new es.
Definition update_regex : M Regex World unit :=
  update_regex Regex GError false regex_new.
Definition fresh : World := fresh_world Regex false false false false true.

End Demo.

(** ** Vocabulary of the properties *)

(** The text an escaped pattern stands for: a backslash yields the special
    character after it; a special character without its backslash, or a
    backslash before anything else, is not the work of the escaping. *)
Fixpoint literal_of (pattern : string) : option string :=
  match pattern with
  | EmptyString => Some EmptyString
  | String c rest =>
      if Ascii.eqb c "\"%char then
        match rest with
        | String d rest' =>
            if regex_special d
            then option_map (String d) (literal_of rest')
            else None
        | EmptyString => None
        end
      else if regex_special c then None
      else option_map (String c) (literal_of rest)
  end.

Section Vocabulary.

Variable Regex : Type.

(** The event by which [update_regex] lets go of the matcher it holds. *)
Definition released (p : TerminalSearchPopoverPrivate Regex) : list (Event Regex) :=
  match regex p with
  | Some r => [RegexUnref Regex r]
  | None => []
  end.

(** The pattern [update_regex] would derive, were [text] in the entry. *)
Definition pattern_for (text : string) (p : TerminalSearchPopoverPrivate Regex) : string :=
  fst (fst (derive_regex Regex (set_search_entry text p))).

(** What holds of a popover between any two signal handlers: the cached
    flags still have their initial value, a pattern is cached exactly while
    a matcher is held, that pattern was derived from some non-empty text
    under the check buttons as they are now, the search buttons are
    sensitive exactly while a matcher is held, and the history has neither
    a duplicate nor a tenth row. *)
Definition popover_inv (w : World Regex) : Prop :=
  let p := priv w in
  regex_caseless p = false /\
  regex_multiline p = false /\
  (regex p = None <-> regex_pattern p = None) /\
  (forall pattern, regex_pattern p = Some pattern ->
     exists text, text <> "" /\ pattern_for text p = pattern) /\
  (search_prev_button p = match regex p with Some _ => true | None => false end /\
   search_next_button p = search_prev_button p) /\
  NoDup (history_rows (global w)) /\
  (List.length (history_rows (global w)) <= 9)%nat.

(** Counting in a trace: the engine calls that yielded a matcher, the
    matchers let go, and the rows put into the history. *)
Definition acquisitions {GError : Type}
  (regex_new : string -> list CompileFlag -> Regex + GError)
  (t : list (Event Regex)) : nat :=
  List.length
    (filter (fun ev =>
               match ev with
               | RegexNew _ pattern flags =>
                   match regex_new pattern flags with
                   | inl _ => true
                   | inr _ => false
                   end
               | _ => false
               end) t).

Definition releases (t : list (Event Regex)) : nat :=
  List.length
    (filter (fun ev => match ev with RegexUnref _ _ => true | _ => false end) t).

Definition insertions (t : list (Event Regex)) : nat :=
  List.length
    (filter (fun ev => match ev with RowInserted _ _ _ => true | _ => false end) t).

(** The events of the list store, as against those of the popover. *)
Definition is_row_event (ev : Event Regex) : bool :=
  match ev with
  | RowDeleted _ _ | RowInserted _ _ _ => true
  | _ => false
  end.

(** One if a matcher is held, zero otherwise. *)
Definition held (w : World Regex) : nat :=
  match regex (priv w) with
  | Some _ => 1%nat
  | None => 0%nat
  end.

End Vocabulary.

Arguments released {Regex}.
Arguments pattern_for {Regex}.
Arguments popover_inv {Regex}.
Arguments acquisitions {Regex GError}.
Arguments releases {Regex}.
Arguments insertions {Regex}.
Arguments is_row_event {Regex}.
Arguments held {Regex}.

(** * Properties *)

(** ** Strings *)

Lemma string_compare_refl (a : string) : String.compare a a = Eq.
Proof.
  induction a as [|c a IH]; simpl; [reflexivity|].
  unfold Ascii.compare. rewrite N.compare_refl. exact IH.
Qed.

Lemma strcmp_refl (a : string) : strcmp a a = 0.
Proof. unfold strcmp. rewrite string_compare_refl. reflexivity. Qed.

Lemma strcmp_eq (a b : string) : (strcmp a b =? 0) = true <-> a = b.
Proof.
  split.
  - unfold strcmp. destruct (String.compare a b) eqn:E; cbn; intro H;
      try discriminate H.
    apply String.compare_eq_iff. exact E.
  - intros ->. rewrite strcmp_refl. reflexivity.
Qed.

Lemma escape_empty (s : string) : g_regex_escape_string s = "" -> s = "".
Proof.
  destruct s as [|c s]; [reflexivity|].
  simpl. destruct (regex_special c); discriminate.
Qed.

(** No text escapes to [\b\b]: a backslash in the output always
    protects a special character, and [b] is none. *)
Lemma escape_not_word_boundaries (s : string) :
  g_regex_escape_string s <> "\b\b".
Proof.
  destruct s as [|c s]; [discriminate|].
  simpl. destruct (regex_special c) eqn:Hc.
  - intros H. injection H as Hb _. subst c. discriminate Hc.
  - intros H. injection H as Hb _. subst c. discriminate Hc.
Qed.

Lemma escape_literal (s : string) :
  literal_of (g_regex_escape_string s) = Some s.
Proof.
  induction s as [|c s IH]; [reflexivity|].
  cbn [g_regex_escape_string]. destruct (regex_special c) eqn:Hc.
  - cbn [literal_of]. rewrite Ascii.eqb_refl, Hc, IH. reflexivity.
  - assert (Hb : Ascii.eqb c "\"%char = false).
    { unfold regex_special in Hc. cbn [existsb] in Hc.
      apply orb_false_elim in Hc. exact (proj1 Hc). }
    cbn [literal_of]. rewrite Hb, Hc, IH. reflexivity.
Qed.

Lemma length_append (s t : string) :
  String.length (s ++ t) = (String.length s + String.length t)%nat.
Proof. induction s; simpl; congruence. Qed.

Lemma append_eq_self (s t : string) : (s ++ t)%string = t -> s = "".
Proof.
  intros H.
  assert (L : String.length (s ++ t) = String.length t) by (rewrite H; reflexivity).
  rewrite length_append in L.
  destruct s; [reflexivity|]. simpl in L. lia.
Qed.

(** ** The monad *)

Section MonadFacts.

Variable Regex : Type.
Context {S A B : Type}.

Local Abbreviation M := (M Regex).

Lemma state_bind (m : M S A) (k : A -> M S B) (s : S) :
  state (bind m k s) = state (k (result (m s)) (state (m s))).
Proof.
  unfold bind, state, result.
  destruct (m s) as [[a s1] t1]. simpl.
  destruct (k a s1) as [[b s2] t2]. reflexivity.
Qed.

Lemma result_bind (m : M S A) (k : A -> M S B) (s : S) :
  result (bind m k s) = result (k (result (m s)) (state (m s))).
Proof.
  unfold bind, state, result.
  destruct (m s) as [[a s1] t1]. simpl.
  destruct (k a s1) as [[b s2] t2]. reflexivity.
Qed.

Lemma trace_bind (m : M S A) (k : A -> M S B) (s : S) :
  trace (bind m k s) =
  trace (m s) ++ trace (k (result (m s)) (state (m s))).
Proof.
  unfold bind, state, result, trace.
  destruct (m s) as [[a s1] t1]. simpl.
  destruct (k a s1) as [[b s2] t2]. reflexivity.
Qed.

Lemma result_triple (a : A) (s : S) (t : list (Event Regex)) :
  result (a, s, t) = a.
Proof. reflexivity. Qed.

Lemma state_triple (a : A) (s : S) (t : list (Event Regex)) :
  state (a, s, t) = s.
Proof. reflexivity. Qed.

Lemma trace_triple (a : A) (s : S) (t : list (Event Regex)) :
  trace (a, s, t) = t.
Proof. reflexivity. Qed.

Lemma nil_trace_bind (r : B * S * list (Event Regex)) :
  (let '(b, s2, t2) := r in (b, s2, [] ++ t2)) = r.
Proof. destruct r as [[b s2] t2]. reflexivity. Qed.

End MonadFacts.

(** ** The history store *)

Section HistoryFacts.

Variable Regex : Type.

Local Abbreviation M := (M Regex).
Local Abbreviation history_enabled := (history_enabled Regex).
Local Abbreviation history_remove_item := (history_remove_item Regex).
Local Abbreviation history_clamp_loop := (history_clamp_loop Regex).
Local Abbreviation history_clamp := (history_clamp Regex).
Local Abbreviation history_insert_item := (history_insert_item Regex).
Local Abbreviation gtk_list_store_remove := (gtk_list_store_remove Regex).
Local Abbreviation gtk_list_store_insert_with_values :=
  (gtk_list_store_insert_with_values Regex).

Lemma history_rows_set (rows : GtkListStore) (g : Global) :
  history_rows (set_history_store (Some rows) g) = rows.
Proof. reflexivity. Qed.

Lemma set_history_store_twice (a b : option GtkListStore) (g : Global) :
  set_history_store a (set_history_store b g) = set_history_store a g.
Proof. reflexivity. Qed.

Lemma remove_row_middle (pre post : GtkListStore) (x : option string) :
  remove_row (List.length pre) (pre ++ x :: post) = pre ++ post.
Proof.
  unfold remove_row. induction pre as [|y pre IH]; simpl.
  - reflexivity.
  - f_equal. exact IH.
Qed.

Lemma remove_row_length (iter : GtkTreeIter) (rows : GtkListStore) :
  (iter < List.length rows)%nat ->
  List.length (remove_row iter rows) = (List.length rows - 1)%nat.
Proof.
  intros H. unfold remove_row.
  rewrite length_app, length_firstn, length_skipn. lia.
Qed.

Lemma remove_row_firstn (iter : GtkTreeIter) (rows : GtkListStore) :
  firstn iter (remove_row iter rows) = firstn iter rows.
Proof.
  unfold remove_row.
  destruct (Nat.le_gt_cases (List.length rows) iter) as [H|H].
  - rewrite (firstn_all2 rows) by lia.
    rewrite skipn_all2 by lia. rewrite app_nil_r. apply firstn_all2. lia.
  - rewrite firstn_app, firstn_firstn, Nat.min_id, length_firstn.
    replace (iter - Nat.min iter (List.length rows))%nat with 0%nat by lia.
    simpl. apply app_nil_r.
Qed.

Lemma remove_row_last (iter : GtkTreeIter) (rows : GtkListStore) :
  (List.length rows <= S iter)%nat ->
  remove_row iter rows = firstn iter rows.
Proof.
  intros H. unfold remove_row. rewrite skipn_all2 by lia. apply app_nil_r.
Qed.

(** *** [history_remove_item] *)

Lemma history_find_absent (text : string) (rows : GtkListStore) (iter : GtkTreeIter) :
  ~ In (Some text) rows -> history_find text rows iter = None.
Proof.
  revert iter. induction rows as [|item rest IH]; intros iter H; simpl.
  - reflexivity.
  - destruct item as [s|].
    + destruct (strcmp s text =? 0) eqn:E.
      * apply strcmp_eq in E. subst s. exfalso. apply H. left. reflexivity.
      * apply IH. intros HIn. apply H. right. exact HIn.
    + apply IH. intros HIn. apply H. right. exact HIn.
Qed.

Lemma history_find_first (text : string) (pre post : GtkListStore) (iter : GtkTreeIter) :
  ~ In (Some text) pre ->
  history_find text (pre ++ Some text :: post) iter = Some (iter + List.length pre)%nat.
Proof.
  revert iter. induction pre as [|item pre IH]; intros iter H; simpl.
  - rewrite strcmp_refl. simpl. f_equal. lia.
  - assert (Hpre : ~ In (Some text) pre) by (intros HIn; apply H; right; exact HIn).
    destruct item as [s|].
    + destruct (strcmp s text =? 0) eqn:E.
      * apply strcmp_eq in E. subst s. exfalso. apply H. left. reflexivity.
      * rewrite IH by exact Hpre. f_equal. lia.
    + rewrite IH by exact Hpre. f_equal. lia.
Qed.

Lemma in_split_first (x : option string) (rows : GtkListStore) :
  In x rows -> exists pre post, rows = pre ++ x :: post /\ ~ In x pre.
Proof.
  induction rows as [|y rows IH]; intros H; [destruct H|].
  assert (D : {y = x} + {y <> x}).
  { decide equality. apply String.string_dec. }
  destruct D as [->|Hne].
  - exists [], rows. split; [reflexivity|]. intros [].
  - destruct H as [H|H]; [congruence|].
    destruct (IH H) as (pre & post & -> & Hpre).
    exists (y :: pre), post. split; [reflexivity|].
    intros [E|E]; [congruence|]. exact (Hpre E).
Qed.

Lemma history_remove_item_present (text : string) (pre post : GtkListStore) (g : Global) :
  history_rows g = pre ++ Some text :: post ->
  ~ In (Some text) pre ->
  history_remove_item text g =
    (true, set_history_store (Some (pre ++ post)) g, [RowDeleted Regex (List.length pre)]).
Proof.
  intros Hrows Hpre.
  unfold history_remove_item, bind, get. rewrite Hrows.
  rewrite (history_find_first text pre post 0%nat Hpre). simpl.
  unfold gtk_list_store_remove, bind, get, put, emit, ret. rewrite Hrows.
  rewrite remove_row_middle. reflexivity.
Qed.

Lemma history_remove_item_absent (text : string) (g : Global) :
  ~ In (Some text) (history_rows g) ->
  history_remove_item text g = (false, g, []).
Proof.
  intros H. unfold history_remove_item, bind, get.
  rewrite (history_find_absent text _ 0%nat H). reflexivity.
Qed.

(** *** [history_clamp] *)

Lemma gtk_list_store_remove_eq (iter : GtkTreeIter) (g : Global) :
  gtk_list_store_remove iter g =
    ((S iter <? List.length (history_rows g))%nat,
     set_history_store (Some (remove_row iter (history_rows g))) g,
     [RowDeleted Regex iter]).
Proof. reflexivity. Qed.

(** Given as many rounds as there are rows from [iter] on, the loop leaves
    through its [break] and the rows before [iter] are what remains. *)
Lemma history_clamp_loop_state (rounds : nat) :
  forall (g : Global) (iter : GtkTreeIter),
    (iter < List.length (history_rows g))%nat ->
    (List.length (history_rows g) - iter <= rounds)%nat ->
    state (history_clamp_loop rounds iter g) =
      set_history_store (Some (firstn iter (history_rows g))) g.
Proof.
  induction rounds as [|rounds IH]; intros g iter Hlt Hrounds; [lia|].
  change (history_clamp_loop (S rounds) iter) with
    (bind (gtk_list_store_remove iter)
       (fun valid : bool => if valid then history_clamp_loop rounds iter else ret tt)).
  rewrite state_bind, gtk_list_store_remove_eq.
  cbv [result state fst snd].
  destruct (S iter <? List.length (history_rows g))%nat eqn:E.
  - apply Nat.ltb_lt in E.
    pose proof (IH (set_history_store (Some (remove_row iter (history_rows g))) g) iter) as IH'.
    rewrite history_rows_set, remove_row_firstn, set_history_store_twice in IH'.
    rewrite remove_row_length in IH' by lia.
    cbv [state fst snd] in IH'. apply IH'; lia.
  - apply Nat.ltb_ge in E. cbn. rewrite remove_row_last by lia. reflexivity.
Qed.

Lemma history_clamp_state (max : Z) (g : Global) :
  0 < max ->
  state (history_clamp max g) =
    if (max <=? Z.of_nat (List.length (history_rows g)))
    then set_history_store (Some (firstn (Z.to_nat (max - 1)) (history_rows g))) g
    else g.
Proof.
  intros Hmax. unfold history_clamp, bind, get, gtk_tree_model_get_iter.
  cbn [fst snd].
  destruct (max <=? Z.of_nat (List.length (history_rows g))) eqn:E.
  - apply Z.leb_le in E.
    replace ((0 <=? max - 1) && (max - 1 <? Z.of_nat (List.length (history_rows g))))
      with true by (symmetry; apply andb_true_iff; split; [apply Z.leb_le|apply Z.ltb_lt]; lia).
    pose proof (history_clamp_loop_state (List.length (history_rows g)) g (Z.to_nat (max - 1))) as L.
    destruct (history_clamp_loop (List.length (history_rows g)) (Z.to_nat (max - 1)) g)
      as [[u g'] t]. cbv [state fst snd] in L |- *.
    apply L; lia.
  - apply Z.leb_gt in E.
    replace (max - 1 <? Z.of_nat (List.length (history_rows g))) with false
      by (symmetry; apply Z.ltb_ge; lia).
    rewrite andb_false_r. reflexivity.
Qed.

(** *** [history_enabled] and [history_insert_item] *)

Lemma history_enabled_eq (g : Global) :
  history_enabled g =
    (gtk_recent_files_enabled g,
     if gtk_recent_files_enabled g
     then set_history_store (Some (history_rows g)) g
     else g,
     []).
Proof. destruct g as [[|] [rows|]]; reflexivity. Qed.

Lemma history_insert_item_eq (text : option string) (g : Global) :
  history_insert_item text g =
    let g1 := if gtk_recent_files_enabled g
              then set_history_store (Some (history_rows g)) g
              else g in
    match text with
    | Some s =>
        if gtk_recent_files_enabled g && negb (g_utf8_strlen s <=? HISTORY_MIN_ITEM_LEN)
        then
          (removed <- history_remove_item s ;;
           (if negb removed then history_clamp (HISTORY_LENGTH - 1) else ret tt) ;;;
           gtk_list_store_insert_with_values 0%nat text) g1
        else (tt, g1, [])
    | None => (tt, g1, [])
    end.
Proof.
  unfold history_insert_item. unfold bind at 1. rewrite history_enabled_eq.
  destruct (gtk_recent_files_enabled g), text as [s|]; cbn [andb negb]; try reflexivity.
  destruct (g_utf8_strlen s <=? HISTORY_MIN_ITEM_LEN); cbn [negb]; [reflexivity|].
  apply nil_trace_bind.
Qed.

(** An insertion that is refused leaves the rows alone and is silent. *)
Lemma history_insert_item_refused (s : string) (g : Global) :
  gtk_recent_files_enabled g = false \/ g_utf8_strlen s <= HISTORY_MIN_ITEM_LEN ->
  history_rows (state (history_insert_item (Some s) g)) = history_rows g /\
  trace (history_insert_item (Some s) g) = [].
Proof.
  intros H. rewrite history_insert_item_eq. cbv zeta.
  replace (gtk_recent_files_enabled g && negb (g_utf8_strlen s <=? HISTORY_MIN_ITEM_LEN))
    with false.
  - destruct g as [[|] [rows|]]; split; reflexivity.
  - symmetry. destruct H as [H|H].
    + rewrite H. reflexivity.
    + apply Z.leb_le in H. rewrite H. apply andb_false_r.
Qed.

Lemma history_insert_item_none (g : Global) :
  history_rows (state (history_insert_item None g)) = history_rows g /\
  trace (history_insert_item None g) = [].
Proof.
  rewrite history_insert_item_eq. destruct g as [[|] [rows|]]; split; reflexivity.
Qed.

(** A text that is already there moves to the front. *)
Lemma history_insert_item_present (s : string) (pre post : GtkListStore) (g : Global) :
  gtk_recent_files_enabled g = true ->
  HISTORY_MIN_ITEM_LEN < g_utf8_strlen s ->
  history_rows g = pre ++ Some s :: post ->
  ~ In (Some s) pre ->
  history_insert_item (Some s) g =
    (tt, set_history_store (Some (Some s :: pre ++ post)) g,
     [RowDeleted Regex (List.length pre); RowInserted Regex 0 (Some s)]).
Proof.
  intros Hen Hlen Hrows Hpre. rewrite history_insert_item_eq. cbv zeta.
  rewrite Hen. replace (g_utf8_strlen s <=? HISTORY_MIN_ITEM_LEN) with false
    by (symmetry; apply Z.leb_gt; exact Hlen).
  cbn [andb negb]. unfold bind at 1.
  rewrite (history_remove_item_present s pre post) by (try exact Hpre; exact Hrows).
  reflexivity.
Qed.

(** A new text goes to the front of what [history_clamp] leaves. *)
Lemma history_insert_item_new (s : string) (g : Global) :
  gtk_recent_files_enabled g = true ->
  HISTORY_MIN_ITEM_LEN < g_utf8_strlen s ->
  ~ In (Some s) (history_rows g) ->
  history_rows (state (history_insert_item (Some s) g)) =
    Some s :: (if (9 <=? List.length (history_rows g))%nat
               then firstn 8 (history_rows g)
               else history_rows g).
Proof.
  intros Hen Hlen Habsent. rewrite history_insert_item_eq. cbv zeta.
  rewrite Hen. replace (g_utf8_strlen s <=? HISTORY_MIN_ITEM_LEN) with false
    by (symmetry; apply Z.leb_gt; exact Hlen).
  cbn [andb negb].
  set (g1 := set_history_store (Some (history_rows g)) g).
  rewrite state_bind, history_remove_item_absent by exact Habsent.
  rewrite result_triple, state_triple, state_bind. cbn [negb].
  change (HISTORY_LENGTH - 1) with 9.
  rewrite history_clamp_state by lia.
  subst g1. rewrite history_rows_set.
  replace (9 <=? Z.of_nat (List.length (history_rows g)))
    with (9 <=? List.length (history_rows g))%nat.
  - destruct (9 <=? List.length (history_rows g))%nat; reflexivity.
  - destruct (9 <=? List.length (history_rows g))%nat eqn:E; symmetry.
    + apply Nat.leb_le in E. apply Z.leb_le. lia.
    + apply Nat.leb_gt in E. apply Z.leb_gt. lia.
Qed.

(** *** What every insertion preserves *)

Lemma In_firstn (n : nat) (x : option string) (rows : GtkListStore) :
  In x (firstn n rows) -> In x rows.
Proof.
  intros H. rewrite <- (firstn_skipn n rows). apply in_or_app. left. exact H.
Qed.

Lemma NoDup_firstn (n : nat) (rows : GtkListStore) :
  NoDup rows -> NoDup (firstn n rows).
Proof.
  intros H. rewrite <- (firstn_skipn n rows) in H.
  exact (NoDup_app_remove_r _ _ H).
Qed.

Lemma history_insert_item_cases (s : string) (g : Global) :
  (gtk_recent_files_enabled g = false \/ g_utf8_strlen s <= HISTORY_MIN_ITEM_LEN) \/
  (gtk_recent_files_enabled g = true /\ HISTORY_MIN_ITEM_LEN < g_utf8_strlen s /\
   ((exists pre post, history_rows g = pre ++ Some s :: post /\ ~ In (Some s) pre) \/
    ~ In (Some s) (history_rows g))).
Proof.
  destruct (gtk_recent_files_enabled g); [|left; left; reflexivity].
  destruct (Z_le_gt_dec (g_utf8_strlen s) HISTORY_MIN_ITEM_LEN) as [Hle|Hgt];
    [left; right; exact Hle|].
  right. split; [reflexivity|]. split; [lia|].
  assert (D : forall a b : option string, {a = b} + {a <> b}).
  { decide equality. apply String.string_dec. }
  destruct (in_dec D (Some s) (history_rows g)) as [HIn|Hout].
  - left. exact (in_split_first _ _ HIn).
  - right. exact Hout.
Qed.

Lemma history_insert_item_NoDup (text : option string) (g : Global) :
  NoDup (history_rows g) ->
  NoDup (history_rows (state (history_insert_item text g))).
Proof.
  intros Hnd. destruct text as [s|].
  2: { rewrite (proj1 (history_insert_item_none g)). exact Hnd. }
  destruct (history_insert_item_cases s g)
    as [Href | (Hen & Hlen & [(pre & post & Hrows & Hpre) | Hout])].
  - rewrite (proj1 (history_insert_item_refused s g Href)). exact Hnd.
  - rewrite (history_insert_item_present s pre post g Hen Hlen Hrows Hpre).
    rewrite state_triple, history_rows_set.
    rewrite Hrows in Hnd. constructor.
    + exact (NoDup_remove_2 _ _ _ Hnd).
    + exact (NoDup_remove_1 _ _ _ Hnd).
  - rewrite (history_insert_item_new s g Hen Hlen Hout). constructor.
    + destruct (9 <=? List.length (history_rows g))%nat; [|exact Hout].
      intros HIn. apply Hout. exact (In_firstn _ _ _ HIn).
    + destruct (9 <=? List.length (history_rows g))%nat; [|exact Hnd].
      apply NoDup_firstn. exact Hnd.
Qed.

(** The store never grows past nine rows: a tenth distinct text finds the
    rows cut down to eight before it is put in front. *)
Lemma history_insert_item_length (text : option string) (g : Global) :
  (List.length (history_rows g) <= 9)%nat ->
  (List.length (history_rows (state (history_insert_item text g))) <= 9)%nat.
Proof.
  intros Hlen9. destruct text as [s|].
  2: { rewrite (proj1 (history_insert_item_none g)). exact Hlen9. }
  destruct (history_insert_item_cases s g)
    as [Href | (Hen & Hlen & [(pre & post & Hrows & Hpre) | Hout])].
  - rewrite (proj1 (history_insert_item_refused s g Href)). exact Hlen9.
  - rewrite (history_insert_item_present s pre post g Hen Hlen Hrows Hpre).
    rewrite state_triple, history_rows_set.
    rewrite Hrows in Hlen9. rewrite length_app in Hlen9. simpl in Hlen9.
    simpl. rewrite length_app. lia.
  - rewrite (history_insert_item_new s g Hen Hlen Hout).
    destruct (9 <=? List.length (history_rows g))%nat eqn:E; cbn [List.length].
    + rewrite length_firstn. lia.
    + apply Nat.leb_gt in E. lia.
Qed.

End HistoryFacts.

(** ** The popover *)

Section PopoverFacts.

Variables Regex GError : Type.
Variable WITH_PCRE2 : bool.
Variable regex_new : string -> list CompileFlag -> Regex + GError.

Local Abbreviation M := (M Regex).
Local Abbreviation World := (World Regex).
Local Abbreviation Priv := (TerminalSearchPopoverPrivate Regex).
Local Abbreviation derive_regex := (derive_regex Regex).
Local Abbreviation regex_is_cached := (regex_is_cached Regex).
Local Abbreviation compile_flags := (compile_flags WITH_PCRE2).
Local Abbreviation update_sensitivity := (update_sensitivity Regex).
Local Abbreviation perform_search := (perform_search Regex).
Local Abbreviation update_regex := (update_regex Regex GError WITH_PCRE2 regex_new).
Local Abbreviation search_text_changed_cb :=
  (search_text_changed_cb Regex GError WITH_PCRE2 regex_new).
Local Abbreviation search_parameters_changed_cb :=
  (search_parameters_changed_cb Regex GError WITH_PCRE2 regex_new).
Local Abbreviation handle := (handle Regex GError WITH_PCRE2 regex_new).
Local Abbreviation handle_all := (handle_all Regex GError WITH_PCRE2 regex_new).
Local Abbreviation fresh_world := (fresh_world Regex).
Local Abbreviation history_insert_item := (history_insert_item Regex).

(** *** The cache test *)

Lemma regex_is_cached_iff (p : Priv) (pattern : string) (caseless multiline : bool) :
  regex_is_cached p pattern caseless multiline = true <->
  regex_caseless p = caseless /\
  regex_multiline p = multiline /\
  regex_pattern p = Some pattern.
Proof using.
  unfold regex_is_cached. rewrite !andb_true_iff, !Bool.eqb_true_iff.
  destruct (regex_pattern p) as [cached|]; cbn [g_strcmp0].
  - rewrite strcmp_eq. split.
    + intros ((Hc & Hm) & Hs). repeat split; [exact Hc | exact Hm | f_equal; exact Hs].
    + intros (Hc & Hm & Hs). injection Hs as Hs.
      repeat split; [exact Hc | exact Hm | exact Hs].
  - cbn. split.
    + intros (_ & H). discriminate H.
    + intros (_ & _ & H). discriminate H.
Qed.

Lemma regex_is_cached_no_pattern (p : Priv) (pattern : string) (caseless multiline : bool) :
  regex_pattern p = None ->
  regex_is_cached p pattern caseless multiline = false.
Proof.
  intros H. apply not_true_is_false. rewrite regex_is_cached_iff, H.
  intros (_ & _ & E). discriminate E.
Qed.

(** *** [update_regex], case by case *)

Lemma update_regex_cached (w : World) :
  (let '(pattern, caseless, multiline) := derive_regex (priv w) in
   regex_is_cached (priv w) pattern caseless multiline) = true ->
  update_regex w = (tt, w, []).
Proof.
  unfold update_regex, bind, get_priv.
  destruct (derive_regex (priv w)) as [[pattern caseless] multiline].
  intros ->. reflexivity.
Qed.

Lemma update_regex_uncached (w : World) :
  (let '(pattern, caseless, multiline) := derive_regex (priv w) in
   regex_is_cached (priv w) pattern caseless multiline) = false ->
  update_regex w =
    let p := priv w in
    let '(pattern, caseless, multiline) := derive_regex p in
    let flags := compile_flags caseless multiline in
    let compiled :=
      match search_entry p with
      | EmptyString => None
      | String _ _ =>
          match regex_new pattern flags with
          | inl r => Some r
          | inr _ => None
          end
      end in
    let can_search := match compiled with Some _ => true | None => false end in
    (tt,
     mkWorld
       (mkPriv (search_entry p) can_search can_search
               (match_case_checkbutton p) (entire_word_checkbutton p)
               (regex_checkbutton p) (wrap_around_checkbutton p)
               (search_text_changed p) (regex_caseless p) (regex_multiline p)
               (match compiled with Some _ => Some pattern | None => None end)
               compiled)
       (global w),
     released p ++
     match search_entry p with
     | EmptyString => []
     | String _ _ => [RegexNew Regex pattern flags]
     end ++ [Notify Regex PROP_REGEX]).
Proof.
  unfold update_regex, bind, get_priv, released. cbv zeta.
  destruct (derive_regex (priv w)) as [[pattern caseless] multiline].
  intros ->.
  destruct w as [[text prev next mc ew rx wa changed cc cm cp [r|]] g];
    destruct text as [|c text]; cbn;
    try destruct (regex_new pattern (compile_flags caseless multiline)) as [r'|err];
    reflexivity.
Qed.

(** *** [perform_search], case by case *)

Lemma perform_search_eq (backward : bool) (w : World) :
  perform_search backward w =
    match regex (priv w) with
    | None => (tt, w, [])
    | Some _ =>
        if search_text_changed (priv w)
        then
          let r := history_insert_item (Some (search_entry (priv w))) (global w) in
          (tt, mkWorld (set_search_text_changed false (priv w)) (state r),
           trace r ++ [SignalEmit Regex SEARCH backward])
        else (tt, w, [SignalEmit Regex SEARCH backward])
    end.
Proof.
  unfold perform_search, bind, get_priv.
  destruct (regex (priv w)) as [r|]; [|reflexivity].
  destruct (search_text_changed (priv w)); [|reflexivity].
  unfold with_global, modify_priv. cbv zeta.
  destruct (history_insert_item (Some (search_entry (priv w))) (global w))
    as [[u g'] t].
  cbn. rewrite app_nil_r. reflexivity.
Qed.

(** *** The derived triple *)

Lemma derive_regex_eq (p : Priv) :
  derive_regex p =
    (let body := if regex_checkbutton p
                 then search_entry p
                 else g_regex_escape_string (search_entry p) in
     if entire_word_checkbutton p then ("\b" ++ body ++ "\b")%string else body,
     negb (match_case_checkbutton p),
     regex_checkbutton p).
Proof.
  unfold derive_regex.
  destruct (regex_checkbutton p), (entire_word_checkbutton p); reflexivity.
Qed.

(** *** Why an empty entry never hits the cache

    Between the handler that cached a pattern and the handler that runs
    now, the entry may have been edited at will but at most one check
    button has flipped. *)
Local Abbreviation derived_nearby p :=
  (forall pattern, regex_pattern p = Some pattern ->
     exists text ew0 rx0,
       text <> "" /\
       (ew0 = entire_word_checkbutton p \/ rx0 = regex_checkbutton p) /\
       pattern_for text
         (set_toggles (match_case_checkbutton p) ew0 rx0 (wrap_around_checkbutton p) p)
       = pattern).

Lemma empty_text_is_never_cached (p : Priv) :
  regex_multiline p = false ->
  derived_nearby p ->
  search_entry p = "" ->
  (let '(pattern, caseless, multiline) := derive_regex p in
   regex_is_cached p pattern caseless multiline) = false.
Proof.
  intros Hm Hnear Hempty. rewrite derive_regex_eq. cbv zeta.
  apply not_true_is_false. intros Hhit. apply regex_is_cached_iff in Hhit.
  destruct Hhit as (_ & Hrx & Hpat). rewrite Hm in Hrx.
  destruct (Hnear _ Hpat) as (text & ew0 & rx0 & Hne & Hflip & Hfor).
  unfold pattern_for in Hfor. rewrite derive_regex_eq in Hfor. cbn in Hfor.
  rewrite Hempty, <- Hrx in Hfor. rewrite <- Hrx in Hflip.
  assert (Hbody : (if rx0 then text else g_regex_escape_string text) <> "").
  { destruct rx0; [exact Hne|]. intros E. apply Hne. exact (escape_empty _ E). }
  destruct (entire_word_checkbutton p), ew0; cbn in Hfor.
  - injection Hfor as Hfor. apply append_eq_self in Hfor. exact (Hbody Hfor).
  - destruct rx0.
    + destruct Hflip as [E|E]; discriminate E.
    + exact (escape_not_word_boundaries _ Hfor).
  - discriminate Hfor.
  - exact (Hbody Hfor).
Qed.

(** *** The invariant *)

Lemma pattern_for_eq (text : string) (p : Priv) :
  pattern_for text p =
    let body := if regex_checkbutton p then text else g_regex_escape_string text in
    if entire_word_checkbutton p then ("\b" ++ body ++ "\b")%string else body.
Proof. unfold pattern_for. rewrite derive_regex_eq. reflexivity. Qed.

(** [update_regex] re-establishes the invariant after one widget changed. *)
Lemma update_regex_inv (w w' : World) (e : UiEvent) (text : string) :
  popover_inv w ->
  global w' = global w ->
  priv w' = set_search_entry text (flip_toggle e (priv w)) ->
  popover_inv (state (update_regex w')).
Proof.
  intros (Hc & Hm & Hiff & Hfrom & (Hprev & Hnext) & Hnd & Hlen) Hg Hp.
  assert (Hc' : regex_caseless (priv w') = false)
    by (rewrite Hp; destruct e; exact Hc).
  assert (Hm' : regex_multiline (priv w') = false)
    by (rewrite Hp; destruct e; exact Hm).
  assert (Hpat' : regex_pattern (priv w') = regex_pattern (priv w))
    by (rewrite Hp; destruct e; reflexivity).
  assert (Hre' : regex (priv w') = regex (priv w))
    by (rewrite Hp; destruct e; reflexivity).
  assert (Hprev' : search_prev_button (priv w') = search_prev_button (priv w))
    by (rewrite Hp; destruct e; reflexivity).
  assert (Hnext' : search_next_button (priv w') = search_next_button (priv w))
    by (rewrite Hp; destruct e; reflexivity).
  assert (Hnear : derived_nearby (priv w')).
  { intros pattern Hpattern. rewrite Hpat' in Hpattern.
    destruct (Hfrom _ Hpattern) as (t0 & Ht0 & Hfor).
    exists t0, (entire_word_checkbutton (priv w)), (regex_checkbutton (priv w)).
    split; [exact Ht0|]. split.
    - rewrite Hp. destruct e; cbn; auto.
    - rewrite <- Hfor. rewrite !pattern_for_eq. reflexivity. }
  destruct (let '(pattern, caseless, multiline) := derive_regex (priv w') in
            regex_is_cached (priv w') pattern caseless multiline) eqn:Hhit.
  - rewrite (update_regex_cached w' Hhit), state_triple.
    unfold popover_inv. cbv zeta. rewrite Hg, Hpat', Hre', Hprev', Hnext'.
    repeat split; try assumption; try (apply Hiff; assumption).
    intros pattern Hpattern. exists (search_entry (priv w')). split.
    + intros Hempty.
      rewrite (empty_text_is_never_cached _ Hm' Hnear Hempty) in Hhit.
      discriminate Hhit.
    + rewrite derive_regex_eq in Hhit. apply regex_is_cached_iff in Hhit.
      destruct Hhit as (_ & _ & Hcached). rewrite Hpat', Hpattern in Hcached.
      injection Hcached as ->. rewrite pattern_for_eq. reflexivity.
  - rewrite (update_regex_uncached w' Hhit). cbv zeta.
    rewrite derive_regex_eq. rewrite state_triple.
    unfold popover_inv. cbn. rewrite Hg.
    repeat split; try assumption.
    + destruct (search_entry (priv w')); [reflexivity|].
      destruct (regex_new _ _); [discriminate|reflexivity].
    + destruct (search_entry (priv w')); [reflexivity|].
      destruct (regex_new _ _); [discriminate|reflexivity].
    + intros pattern Hpattern. exists (search_entry (priv w')).
      destruct (search_entry (priv w')) as [|c t] eqn:Htext; [discriminate Hpattern|].
      split; [discriminate|].
      destruct (regex_new _ _); [|discriminate Hpattern].
      injection Hpattern as <-. rewrite pattern_for_eq. reflexivity.
Qed.

(** The invariant looks at the cache, the two check buttons that shape
    the pattern, the search buttons and the rows of the history only. *)
Lemma popover_inv_ext (w w' : World) :
  popover_inv w ->
  regex_caseless (priv w') = regex_caseless (priv w) ->
  regex_multiline (priv w') = regex_multiline (priv w) ->
  regex_pattern (priv w') = regex_pattern (priv w) ->
  regex (priv w') = regex (priv w) ->
  search_prev_button (priv w') = search_prev_button (priv w) ->
  search_next_button (priv w') = search_next_button (priv w) ->
  entire_word_checkbutton (priv w') = entire_word_checkbutton (priv w) ->
  regex_checkbutton (priv w') = regex_checkbutton (priv w) ->
  history_rows (global w') = history_rows (global w) ->
  popover_inv w'.
Proof.
  intros (Hc & Hm & Hiff & Hfrom & (Hprev & Hnext) & Hnd & Hlen)
         Ec Em Ep Er Eprev Enext Eew Erx Erows.
  unfold popover_inv. cbv zeta.
  rewrite Ec, Em, Ep, Er, Eprev, Enext, Erows.
  repeat split; try assumption; try (apply Hiff; assumption).
  intros pattern Hpattern. destruct (Hfrom _ Hpattern) as (text & Hne & Hfor).
  exists text. split; [exact Hne|].
  rewrite pattern_for_eq in Hfor |- *. rewrite Eew, Erx. exact Hfor.
Qed.

Lemma perform_search_inv (backward : bool) (w : World) :
  popover_inv w -> popover_inv (state (perform_search backward w)).
Proof.
  intros Hinv. rewrite perform_search_eq.
  destruct (regex (priv w)) as [r|] eqn:Hr; [|exact Hinv].
  destruct (search_text_changed (priv w)); [|exact Hinv].
  cbv zeta. rewrite state_triple.
  destruct Hinv as (Hc & Hm & Hiff & Hfrom & (Hprev & Hnext) & Hnd & Hlen).
  unfold popover_inv. cbn.
  repeat split; try assumption; try (apply Hiff; assumption).
  - apply history_insert_item_NoDup. exact Hnd.
  - apply history_insert_item_length. exact Hlen.
Qed.

Lemma handle_inv (e : UiEvent) (w : World) :
  popover_inv w -> popover_inv (state (handle e w)).
Proof.
  intros Hinv.
  assert (Hflip : forall e' : UiEvent,
             popover_inv
               (state (update_regex (mkWorld (flip_toggle e' (priv w)) (global w))))).
  { intros e'. apply (update_regex_inv w _ e' (search_entry (priv w)));
      [exact Hinv | reflexivity | destruct w as [[] g]; destruct e'; reflexivity]. }
  destruct e; unfold handle.
  - apply (popover_inv_ext w _ Hinv); reflexivity.
  - unfold search_text_changed_cb. rewrite state_bind.
    apply (popover_inv_ext (state (update_regex w))); try reflexivity.
    apply (update_regex_inv w w SearchChanged (search_entry (priv w)));
      [exact Hinv | reflexivity | destruct w as [[] g]; reflexivity].
  - rewrite state_bind. exact (Hflip MatchCaseToggled).
  - rewrite state_bind. exact (Hflip EntireWordToggled).
  - rewrite state_bind. exact (Hflip RegexToggled).
  - apply (popover_inv_ext w _ Hinv); reflexivity.
  - apply perform_search_inv. exact Hinv.
  - apply perform_search_inv. exact Hinv.
  - apply perform_search_inv. exact Hinv.
  - apply perform_search_inv. exact Hinv.
  - exact Hinv.
  - apply (popover_inv_ext w _ Hinv); reflexivity.
Qed.

Lemma handle_all_inv (es : list UiEvent) :
  forall w : World, popover_inv w -> popover_inv (state (handle_all es w)).
Proof.
  induction es as [|e es IH]; intros w Hinv.
  - exact Hinv.
  - change (handle_all (e :: es)) with (bind (handle e) (fun _ => handle_all es)).
    rewrite state_bind. apply IH. apply handle_inv. exact Hinv.
Qed.

Lemma fresh_world_inv (match_case entire_word use_regex wrap_around enabled : bool) :
  popover_inv (fresh_world match_case entire_word use_regex wrap_around enabled).
Proof.
  unfold popover_inv. destruct enabled; cbn;
    repeat split; try discriminate; try constructor; try reflexivity; lia.
Qed.

(** Every popover the user can bring about satisfies the invariant. *)
Lemma reachable_inv (match_case entire_word use_regex wrap_around enabled : bool)
  (es : list UiEvent) :
  popover_inv
    (state (handle_all es
              (fresh_world match_case entire_word use_regex wrap_around enabled))).
Proof. apply handle_all_inv. apply fresh_world_inv. Qed.

(** *** What [update_regex] never touches *)

Lemma update_regex_frame (w : World) :
  global (state (update_regex w)) = global w /\
  search_text_changed (priv (state (update_regex w))) = search_text_changed (priv w) /\
  search_entry (priv (state (update_regex w))) = search_entry (priv w) /\
  regex_caseless (priv (state (update_regex w))) = regex_caseless (priv w) /\
  regex_multiline (priv (state (update_regex w))) = regex_multiline (priv w).
Proof.
  destruct (let '(pattern, caseless, multiline) := derive_regex (priv w) in
            regex_is_cached (priv w) pattern caseless multiline) eqn:Hhit.
  - rewrite (update_regex_cached w Hhit). repeat split; reflexivity.
  - rewrite (update_regex_uncached w Hhit). cbv zeta.
    destruct (derive_regex (priv w)) as [[pattern caseless] multiline].
    repeat split; reflexivity.
Qed.

Lemma compile_flags_caseless (caseless multiline : bool) :
  In CASELESS (compile_flags caseless multiline) <-> caseless = true.
Proof.
  unfold compile_flags.
  destruct WITH_PCRE2, caseless, multiline; cbn; intuition discriminate.
Qed.

Lemma compile_flags_multiline (caseless multiline : bool) :
  In MULTILINE (compile_flags caseless multiline) <-> multiline = true.
Proof.
  unfold compile_flags.
  destruct WITH_PCRE2, caseless, multiline; cbn; intuition discriminate.
Qed.

Lemma inv_nearby (w : World) : popover_inv w -> derived_nearby (priv w).
Proof.
  intros (_ & _ & _ & Hfrom & _) pattern Hpattern.
  destruct (Hfrom _ Hpattern) as (text & Hne & Hfor).
  exists text, (entire_word_checkbutton (priv w)), (regex_checkbutton (priv w)).
  split; [exact Hne|]. split; [left; reflexivity|].
  rewrite <- Hfor. rewrite !pattern_for_eq. reflexivity.
Qed.

(** While the dirty flag is down and [search-changed] stays away, no
    handler touches the history or raises the flag. *)
Lemma handle_without_text_change (e : UiEvent) (w : World) :
  search_text_changed (priv w) = false ->
  e <> SearchChanged ->
  search_text_changed (priv (state (handle e w))) = false /\
  history_store (global (state (handle e w))) = history_store (global w).
Proof.
  intros Hflag He.
  assert (Hsearch : forall backward,
             search_text_changed (priv (state (perform_search backward w))) = false /\
             history_store (global (state (perform_search backward w))) =
               history_store (global w)).
  { intros backward. rewrite perform_search_eq.
    destruct (regex (priv w)); [rewrite Hflag|]; rewrite state_triple;
      split; first [exact Hflag | reflexivity]. }
  assert (Hflip : forall e' : UiEvent,
             search_text_changed (priv (state (update_regex
               (mkWorld (flip_toggle e' (priv w)) (global w))))) = false /\
             history_store (global (state (update_regex
               (mkWorld (flip_toggle e' (priv w)) (global w))))) =
               history_store (global w)).
  { intros e'.
    destruct (update_regex_frame (mkWorld (flip_toggle e' (priv w)) (global w)))
      as (Hg & Hf & _).
    rewrite Hg, Hf. split; [|reflexivity]. destruct e'; exact Hflag. }
  destruct e; unfold handle; try (rewrite state_bind); try apply Hsearch.
  - split; [exact Hflag|reflexivity].
  - contradiction He; reflexivity.
  - exact (Hflip MatchCaseToggled).
  - exact (Hflip EntireWordToggled).
  - exact (Hflip RegexToggled).
  - split; [exact Hflag|reflexivity].
  - split; [exact Hflag|reflexivity].
  - split; [exact Hflag|reflexivity].
Qed.

Lemma handle_all_without_text_change (es : list UiEvent) :
  forall w : World,
    search_text_changed (priv w) = false ->
    ~ In SearchChanged es ->
    search_text_changed (priv (state (handle_all es w))) = false /\
    history_store (global (state (handle_all es w))) = history_store (global w).
Proof.
  induction es as [|e es IH]; intros w Hflag Hes.
  - split; [exact Hflag|reflexivity].
  - change (handle_all (e :: es)) with (bind (handle e) (fun _ => handle_all es)).
    rewrite state_bind.
    assert (He : e <> SearchChanged)
      by (intros ->; apply Hes; left; reflexivity).
    destruct (handle_without_text_change e w Hflag He) as (Hflag' & Hstore).
    destruct (IH (state (handle e w)) Hflag') as (Hflag'' & Hstore').
    + intros HIn. apply Hes. right. exact HIn.
    + split; [exact Hflag''|]. rewrite Hstore'. exact Hstore.
Qed.

(** ** The claims *)

(** C2.  The effective pattern is the entry's text, escaped by
    [g_regex_escape_string] unless the regex button is active, and wrapped
    in [\b...\b] when the entire-word button is active; multiline is the
    state of the regex button and caseless the negation of the match-case
    button.  When [update_regex] gets to compile, it is this pattern and
    these flags that reach the engine.  The escaped text carries a backslash
    before every special character and before nothing else: read back, it is
    the text.  For the text [cat] with entire-word on and regex off the
    pattern is [\bcat\b]. *)
Theorem C2_effective_pattern (w : World) :
  let p := priv w in
  let body := if regex_checkbutton p
              then search_entry p
              else g_regex_escape_string (search_entry p) in
  let pattern := if entire_word_checkbutton p
                 then ("\b" ++ body ++ "\b")%string
                 else body in
  let caseless := negb (match_case_checkbutton p) in
  let multiline := regex_checkbutton p in
  let flags := compile_flags caseless multiline in
  derive_regex p = (pattern, caseless, multiline) /\
  (regex_checkbutton p = false -> literal_of body = Some (search_entry p)) /\
  (In CASELESS flags <-> match_case_checkbutton p = false) /\
  (In MULTILINE flags <-> regex_checkbutton p = true) /\
  (regex_is_cached p pattern caseless multiline = false ->
   search_entry p <> "" ->
   In (RegexNew Regex pattern flags) (trace (update_regex w)) /\
   regex (priv (state (update_regex w))) =
     match regex_new pattern flags with inl r => Some r | inr _ => None end) /\
  (search_entry p = "cat" -> entire_word_checkbutton p = true ->
   regex_checkbutton p = false ->
   pattern = "\bcat\b" /\ multiline = false).
Proof.
  cbv zeta. split; [apply derive_regex_eq|]. split; [|split; [|split; [|split]]].
  - intros ->. apply escape_literal.
  - rewrite compile_flags_caseless. destruct (match_case_checkbutton (priv w));
      cbn; intuition discriminate.
  - apply compile_flags_multiline.
  - intros Hmiss Htext.
    assert (Hhit : (let '(pattern, caseless, multiline) := derive_regex (priv w) in
                    regex_is_cached (priv w) pattern caseless multiline) = false)
      by (rewrite derive_regex_eq; exact Hmiss).
    rewrite (update_regex_uncached w Hhit). cbv zeta. rewrite derive_regex_eq.
    rewrite trace_triple, state_triple. cbn [priv regex].
    destruct (search_entry (priv w)) as [|c t]; [contradiction Htext; reflexivity|].
    split; [|reflexivity].
    apply in_or_app. right. left. reflexivity.
  - intros -> -> ->. split; reflexivity.
Qed.

(** C3.  With the history enabled, inserting an eligible text that the
    store already holds deletes its row, wherever that row is, and puts the
    text in front; an insertion keeps a duplicate-free store duplicate-free,
    so no store the user can bring about holds a text twice; and [hello],
    [world], [hello] inserted in turn leave [hello; world]. *)
Theorem C3_history_dedup :
  (forall (g : Global) (s : string) (pre post : GtkListStore),
     gtk_recent_files_enabled g = true ->
     HISTORY_MIN_ITEM_LEN < g_utf8_strlen s ->
     history_rows g = pre ++ Some s :: post ->
     ~ In (Some s) pre ->
     history_rows (state (history_insert_item (Some s) g)) = Some s :: pre ++ post /\
     trace (history_insert_item (Some s) g) =
       [RowDeleted Regex (List.length pre); RowInserted Regex 0 (Some s)]) /\
  (forall (g : Global) (text : option string),
     NoDup (history_rows g) ->
     NoDup (history_rows (state (history_insert_item text g)))) /\
  (forall (match_case entire_word use_regex wrap_around enabled : bool)
          (es : list UiEvent),
     NoDup (history_rows (global (state (handle_all es
       (fresh_world match_case entire_word use_regex wrap_around enabled)))))) /\
  (let insert s g := state (history_insert_item (Some s) g) in
   history_rows (insert "hello" (insert "world" (insert "hello" (mkGlobal true None))))
   = [Some "hello"; Some "world"]).
Proof.
  split; [|split; [|split]].
  - intros g s pre post Hen Hlen Hrows Hpre.
    rewrite (history_insert_item_present Regex s pre post g Hen Hlen Hrows Hpre).
    split; reflexivity.
  - intros g text. apply history_insert_item_NoDup.
  - intros mc ew rx wa en es.
    pose proof (reachable_inv mc ew rx wa en es) as Hinv.
    exact (proj1 (proj2 (proj2 (proj2 (proj2 (proj2 Hinv)))))).
  - reflexivity.
Qed.

(** C4.  What the code does where the claim expects ten rows: no store
    the user can bring about holds more than nine.  [history_clamp] is
    handed [HISTORY_LENGTH - 1] and starts deleting at the row of index
    [max - 1], so a new text finds a store of nine cut down to eight; eleven
    distinct eligible texts leave nine rows, the two oldest gone. *)
Theorem C4_history_keeps_nine_rows :
  (forall (match_case entire_word use_regex wrap_around enabled : bool)
          (es : list UiEvent),
     (List.length (history_rows (global (state (handle_all es
        (fresh_world match_case entire_word use_regex wrap_around enabled)))))
      <= 9)%nat) /\
  (forall (g : Global) (s : string),
     gtk_recent_files_enabled g = true ->
     HISTORY_MIN_ITEM_LEN < g_utf8_strlen s ->
     ~ In (Some s) (history_rows g) ->
     List.length (history_rows g) = 9%nat ->
     history_rows (state (history_insert_item (Some s) g)) =
       Some s :: firstn 8 (history_rows g)) /\
  (let insert g s := state (history_insert_item (Some s) g) in
   history_rows
     (fold_left insert
        ["text01"; "text02"; "text03"; "text04"; "text05"; "text06";
         "text07"; "text08"; "text09"; "text10"; "text11"]
        (mkGlobal true None))
   = [Some "text11"; Some "text10"; Some "text09"; Some "text08";
      Some "text07"; Some "text06"; Some "text05"; Some "text04";
      Some "text03"]).
Proof.
  split; [|split].
  - intros mc ew rx wa en es.
    pose proof (reachable_inv mc ew rx wa en es) as Hinv.
    exact (proj2 (proj2 (proj2 (proj2 (proj2 (proj2 Hinv)))))).
  - intros g s Hen Hlen Hout Hnine.
    rewrite (history_insert_item_new Regex s g Hen Hlen Hout), Hnine. reflexivity.
  - reflexivity.
Qed.

(** C5.  In any state the user can bring about, [update_regex] run on an
    empty entry leaves the popover without a matcher, whatever the check
    buttons say: the engine is not called, and a matcher that was held is
    released. *)
Theorem C5_empty_text_gives_no_regex
  (match_case entire_word use_regex wrap_around enabled : bool)
  (es : list UiEvent) :
  let w := state (handle_all es
             (fresh_world match_case entire_word use_regex wrap_around enabled)) in
  search_entry (priv w) = "" ->
  terminal_search_popover_get_regex Regex (state (update_regex w)) = None /\
  regex_pattern (priv (state (update_regex w))) = None /\
  trace (update_regex w) = released (priv w) ++ [Notify Regex PROP_REGEX].
Proof.
  cbv zeta. intros Hempty.
  pose proof (reachable_inv match_case entire_word use_regex wrap_around enabled es)
    as Hinv.
  set (w := state (handle_all es _)) in *.
  assert (Hm : regex_multiline (priv w) = false) by (apply Hinv).
  pose proof (empty_text_is_never_cached _ Hm (inv_nearby w Hinv) Hempty) as Hmiss.
  rewrite (update_regex_uncached w Hmiss). cbv zeta.
  destruct (derive_regex (priv w)) as [[pattern caseless] multiline].
  rewrite Hempty. repeat split; reflexivity.
Qed.

(** C6.  [perform_search] does nothing while no matcher is held.  With a
    matcher and the dirty flag up, it hands the entry's text to
    [history_insert_item], lowers the flag and then emits [search]: what
    the insertion signals comes first in the trace.  With the flag down it
    only emits.  [search_text_changed_cb] raises the flag. *)
Theorem C6_perform_search (w : World) (backward : bool) :
  (regex (priv w) = None -> perform_search backward w = (tt, w, [])) /\
  (regex (priv w) <> None ->
   search_text_changed (priv w) = true ->
   let commit := history_insert_item (Some (search_entry (priv w))) (global w) in
   perform_search backward w =
     (tt,
      mkWorld (set_search_text_changed false (priv w)) (state commit),
      trace commit ++ [SignalEmit Regex SEARCH backward])) /\
  (regex (priv w) <> None ->
   search_text_changed (priv w) = false ->
   perform_search backward w = (tt, w, [SignalEmit Regex SEARCH backward])) /\
  search_text_changed (priv (state (search_text_changed_cb w))) = true.
Proof.
  rewrite perform_search_eq. repeat split.
  - intros ->. reflexivity.
  - intros Hre ->. destruct (regex (priv w)); [reflexivity|contradiction Hre; reflexivity].
  - intros Hre ->. destruct (regex (priv w)); [reflexivity|contradiction Hre; reflexivity].
  - unfold search_text_changed_cb. rewrite state_bind. reflexivity.
Qed.

(** C7.  An insertion of a text of at most three code points changes no
    row and signals nothing; with the history enabled, a text of four or
    more code points is in front afterwards.  [ab] and [abc] are refused,
    [abcd] is taken. *)
Theorem C7_history_threshold (g : Global) (s : string) :
  (g_utf8_strlen s <= 3 ->
   history_rows (state (history_insert_item (Some s) g)) = history_rows g /\
   trace (history_insert_item (Some s) g) = []) /\
  (4 <= g_utf8_strlen s ->
   gtk_recent_files_enabled g = true ->
   exists rest,
     history_rows (state (history_insert_item (Some s) g)) = Some s :: rest) /\
  (let insert s g := state (history_insert_item (Some s) g) in
   let empty := mkGlobal true None in
   g_utf8_strlen "ab" = 2 /\ history_rows (insert "ab" empty) = [] /\
   g_utf8_strlen "abc" = 3 /\ history_rows (insert "abc" empty) = [] /\
   g_utf8_strlen "abcd" = 4 /\ history_rows (insert "abcd" empty) = [Some "abcd"]).
Proof.
  split; [|split].
  - intros Hshort. apply history_insert_item_refused. right. exact Hshort.
  - intros Hlong Hen.
    destruct (history_insert_item_cases s g)
      as [[Hoff | Hshort] | (_ & Hlen & [(pre & post & Hrows & Hpre) | Hout])].
    + congruence.
    + unfold HISTORY_MIN_ITEM_LEN in Hshort. lia.
    + rewrite (history_insert_item_present Regex s pre post g Hen Hlen Hrows Hpre).
      eexists. reflexivity.
    + rewrite (history_insert_item_new Regex s g Hen Hlen Hout).
      eexists. reflexivity.
  - repeat split; reflexivity.
Qed.

(** C9.  Whenever the derived triple differs from the one in the cache
    fields, [update_regex] ends by notifying [regex], also when no matcher
    was held and none results: with the entry empty or the engine refusing
    the pattern, the notification is emitted and the popover still has
    neither matcher nor cached pattern, so the next call notifies again.
    In particular each flip of a check button over an empty entry emits
    exactly one notification. *)
Theorem C9_notify_whenever_uncached
  (w : World) (pattern : string) (caseless multiline : bool) :
  derive_regex (priv w) = (pattern, caseless, multiline) ->
  ((regex_pattern (priv w), regex_caseless (priv w), regex_multiline (priv w))
     <> (Some pattern, caseless, multiline) ->
   exists t, trace (update_regex w) = t ++ [Notify Regex PROP_REGEX]) /\
  (regex (priv w) = None ->
   regex_pattern (priv w) = None ->
   search_entry (priv w) = "" \/
   (exists err, regex_new pattern (compile_flags caseless multiline) = inr err) ->
   (exists t, trace (update_regex w) = t ++ [Notify Regex PROP_REGEX]) /\
   regex (priv (state (update_regex w))) = None /\
   regex_pattern (priv (state (update_regex w))) = None) /\
  (forall e : UiEvent,
     e = MatchCaseToggled \/ e = EntireWordToggled \/ e = RegexToggled ->
     regex (priv w) = None ->
     regex_pattern (priv w) = None ->
     search_entry (priv w) = "" ->
     trace (handle e w) = [Notify Regex PROP_REGEX] /\
     regex (priv (state (handle e w))) = None /\
     regex_pattern (priv (state (handle e w))) = None).
Proof.
  intros Hderive. split; [|split].
  - intros Hdiff.
    assert (Hmiss : (let '(pattern, caseless, multiline) := derive_regex (priv w) in
                     regex_is_cached (priv w) pattern caseless multiline) = false).
    { rewrite Hderive. apply not_true_is_false. intros Hhit.
      apply regex_is_cached_iff in Hhit. destruct Hhit as (Hc & Hm & Hp).
      apply Hdiff. rewrite Hc, Hm, Hp. reflexivity. }
    rewrite (update_regex_uncached w Hmiss). cbv zeta. rewrite Hderive, trace_triple.
    rewrite app_assoc. eexists. reflexivity.
  - intros Hre Hpat Hnone.
    assert (Hmiss : (let '(pattern, caseless, multiline) := derive_regex (priv w) in
                     regex_is_cached (priv w) pattern caseless multiline) = false).
    { rewrite Hderive. apply regex_is_cached_no_pattern. exact Hpat. }
    rewrite (update_regex_uncached w Hmiss). cbv zeta. rewrite Hderive.
    rewrite trace_triple, state_triple. cbn [priv regex regex_pattern].
    split; [rewrite app_assoc; eexists; reflexivity|].
    destruct Hnone as [Hempty | (err & Herr)].
    + rewrite Hempty. split; reflexivity.
    + rewrite Herr. destruct (search_entry (priv w)); split; reflexivity.
  - intros e He Hre Hpat Hempty.
    assert (Hgoal : let w' := mkWorld (flip_toggle e (priv w)) (global w) in
                    trace (update_regex w') = [Notify Regex PROP_REGEX] /\
                    regex (priv (state (update_regex w'))) = None /\
                    regex_pattern (priv (state (update_regex w'))) = None).
    { pose (w' := mkWorld (flip_toggle e (priv w)) (global w)).
      change (trace (update_regex w') = [Notify Regex PROP_REGEX] /\
              regex (priv (state (update_regex w'))) = None /\
              regex_pattern (priv (state (update_regex w'))) = None).
      assert (Hpat' : regex_pattern (priv w') = None)
        by (destruct e; exact Hpat).
      assert (Hre' : regex (priv w') = None)
        by (destruct e; exact Hre).
      assert (Hempty' : search_entry (priv w') = "")
        by (destruct e; exact Hempty).
      assert (Hmiss : (let '(pattern, caseless, multiline) := derive_regex (priv w') in
                       regex_is_cached (priv w') pattern caseless multiline) = false).
      { destruct (derive_regex (priv w')) as [[pat c] m].
        apply regex_is_cached_no_pattern. exact Hpat'. }
      rewrite (update_regex_uncached w' Hmiss). cbv zeta.
      destruct (derive_regex (priv w')) as [[pat c] m].
      rewrite trace_triple, state_triple. cbn [priv regex regex_pattern].
      unfold released. rewrite Hre', Hempty'. repeat split; reflexivity. }
    destruct He as [-> | [-> | ->]]; unfold handle;
      rewrite trace_bind, state_bind; exact Hgoal.
Qed.

(** C10.  A search made with a matcher held and the dirty flag up lowers
    the flag whether or not the history takes the text: with the history
    disabled or the text no longer than three code points the rows stay as
    they were.  From then on, whatever happens short of [search-changed],
    the flag stays down and the history is not written. *)
Theorem C10_flag_cleared_without_commit
  (w : World) (backward : bool) (es : list UiEvent) :
  regex (priv w) <> None ->
  search_text_changed (priv w) = true ->
  ~ In SearchChanged es ->
  let w1 := state (perform_search backward w) in
  let w2 := state (handle_all es w1) in
  search_text_changed (priv w1) = false /\
  (gtk_recent_files_enabled (global w) = false \/
   g_utf8_strlen (search_entry (priv w)) <= 3 ->
   history_rows (global w1) = history_rows (global w)) /\
  search_text_changed (priv w2) = false /\
  history_store (global w2) = history_store (global w1).
Proof.
  intros Hre Hflag Hes. cbv zeta.
  assert (Hflag1 : search_text_changed (priv (state (perform_search backward w))) = false).
  { rewrite perform_search_eq.
    destruct (regex (priv w)); [|contradiction Hre; reflexivity].
    rewrite Hflag. reflexivity. }
  split; [exact Hflag1|]. split.
  - intros Hrefused. rewrite perform_search_eq.
    destruct (regex (priv w)); [|contradiction Hre; reflexivity].
    rewrite Hflag. cbv zeta. rewrite state_triple. cbn [global].
    apply (history_insert_item_refused Regex). exact Hrefused.
  - apply handle_all_without_text_change; assumption.
Qed.

End PopoverFacts.

(** C1.  What the code does where the claim expects a cache keyed by the
    triple: [regex_caseless] and [regex_multiline] are written by the
    instance initialiser only, so [update_regex] returns early exactly when
    match-case is on, regex mode is off and the pattern equals the cached
    one.  With the stand-in engine: a second call with the very same triple
    recompiles and notifies; switching match-case on keeps the matcher that
    was compiled caseless; switching regex mode off keeps the matcher that
    was compiled multiline. *)
Theorem C1_cache_flags_stay_initial :
  (forall (Regex GError : Type) (WITH_PCRE2 : bool)
          (regex_new : string -> list CompileFlag -> Regex + GError)
          (match_case entire_word use_regex wrap_around enabled : bool)
          (es : list UiEvent) (pattern : string) (caseless multiline : bool),
     let w := state (handle_all Regex GError WITH_PCRE2 regex_new es
                (fresh_world Regex match_case entire_word use_regex wrap_around enabled)) in
     derive_regex Regex (priv w) = (pattern, caseless, multiline) ->
     (regex_is_cached Regex (priv w) pattern caseless multiline = true <->
      match_case_checkbutton (priv w) = true /\
      regex_checkbutton (priv w) = false /\
      regex_pattern (priv w) = Some pattern)) /\
  (let w := state (Demo.handle_all [EntryEdited "abcd"; SearchChanged] Demo.fresh) in
   regex (priv w) = Some ("abcd", [OPTIMIZE; CASELESS]) /\
   derive_regex Demo.Regex (priv w) = ("abcd", true, false) /\
   trace (Demo.update_regex w) =
     [RegexUnref Demo.Regex ("abcd", [OPTIMIZE; CASELESS]);
      RegexNew Demo.Regex "abcd" [OPTIMIZE; CASELESS];
      Notify Demo.Regex PROP_REGEX]) /\
  (let w := state (Demo.handle_all [EntryEdited "abcd"; SearchChanged] Demo.fresh) in
   let r := Demo.handle_all [MatchCaseToggled] w in
   trace r = [] /\
   derive_regex Demo.Regex (priv (state r)) = ("abcd", false, false) /\
   regex (priv (state r)) = Some ("abcd", [OPTIMIZE; CASELESS])) /\
  (let w := state (Demo.handle_all
                     [MatchCaseToggled; EntryEdited "abcd"; SearchChanged; RegexToggled]
                     Demo.fresh) in
   let r := Demo.handle_all [RegexToggled] w in
   regex (priv w) = Some ("abcd", [OPTIMIZE; MULTILINE]) /\
   trace r = [] /\
   derive_regex Demo.Regex (priv (state r)) = ("abcd", false, false) /\
   regex (priv (state r)) = Some ("abcd", [OPTIMIZE; MULTILINE])).
Proof.
  split; [|repeat split; reflexivity].
  intros Regex GError WITH_PCRE2 regex_new mc ew rx wa en es pattern caseless multiline.
  cbv zeta. intros Hderive.
  pose proof (reachable_inv Regex GError WITH_PCRE2 regex_new mc ew rx wa en es)
    as (Hc & Hm & _).
  rewrite derive_regex_eq in Hderive. injection Hderive as _ <- <-.
  rewrite regex_is_cached_iff, Hc, Hm.
  destruct (match_case_checkbutton _), (regex_checkbutton _); cbn;
    intuition discriminate.
Qed.

(** C8.  When [update_regex] gets to compile a non-empty text and the
    engine refuses the pattern, the matcher held before has been released
    ahead of the call, the popover is left without matcher and without
    cached pattern, both search buttons are insensitive, and nothing of the
    error shows: whatever error an engine reports for this pattern, state
    and trace come out the same. *)
Theorem C8_compile_failure_swallowed
  (Regex GError GError' : Type) (WITH_PCRE2 : bool)
  (regex_new : string -> list CompileFlag -> Regex + GError)
  (regex_new' : string -> list CompileFlag -> Regex + GError')
  (w : World Regex) (pattern : string) (caseless multiline : bool)
  (err : GError) (err' : GError') :
  let flags := compile_flags WITH_PCRE2 caseless multiline in
  derive_regex Regex (priv w) = (pattern, caseless, multiline) ->
  regex_is_cached Regex (priv w) pattern caseless multiline = false ->
  search_entry (priv w) <> "" ->
  regex_new pattern flags = inr err ->
  regex_new' pattern flags = inr err' ->
  let r := update_regex Regex GError WITH_PCRE2 regex_new w in
  trace r = released (priv w) ++
            [RegexNew Regex pattern flags; Notify Regex PROP_REGEX] /\
  terminal_search_popover_get_regex Regex (state r) = None /\
  regex_pattern (priv (state r)) = None /\
  search_prev_button (priv (state r)) = false /\
  search_next_button (priv (state r)) = false /\
  update_regex Regex GError' WITH_PCRE2 regex_new' w = r.
Proof.
  cbv zeta. intros Hderive Hmiss Htext Herr Herr'.
  assert (Hmiss' : (let '(pattern, caseless, multiline) := derive_regex Regex (priv w) in
                    regex_is_cached Regex (priv w) pattern caseless multiline) = false)
    by (rewrite Hderive; exact Hmiss).
  rewrite (update_regex_uncached Regex GError WITH_PCRE2 regex_new w Hmiss').
  rewrite (update_regex_uncached Regex GError' WITH_PCRE2 regex_new' w Hmiss').
  cbv zeta. rewrite Hderive, Herr, Herr'.
  destruct (search_entry (priv w)) as [|c t]; [contradiction Htext; reflexivity|].
  repeat split; reflexivity.
Qed.

(** ** The claims at work: worked instances on the stand-in engine *)

Lemma C1_cache_flags_stay_initial_witness :
  let w := state (Demo.handle_all [EntryEdited "abcd"; SearchChanged] Demo.fresh) in
  derive_regex Demo.Regex (priv w) = ("abcd", true, false) /\
  (regex_is_cached Demo.Regex (priv w) "abcd" true false = true <->
   match_case_checkbutton (priv w) = true /\
   regex_checkbutton (priv w) = false /\
   regex_pattern (priv w) = Some "abcd").
Proof.
  split; [reflexivity|].
  apply (proj1 C1_cache_flags_stay_initial
           Demo.Regex Demo.GError false Demo.regex_new
           false false false false true
           [EntryEdited "abcd"; SearchChanged] "abcd" true false).
  reflexivity.
Defined.

Lemma C2_effective_pattern_witness :
  let w : Demo.World :=
    mkWorld (mkPriv "cat" false false false true false false false false false None None)
            (mkGlobal true (Some [])) in
  (search_entry (priv w) = "cat" /\
   entire_word_checkbutton (priv w) = true /\
   regex_checkbutton (priv w) = false /\
   regex_is_cached Demo.Regex (priv w) "\bcat\b" true false = false) /\
  derive_regex Demo.Regex (priv w) = ("\bcat\b", true, false) /\
  (In (RegexNew Demo.Regex "\bcat\b" [OPTIMIZE; CASELESS])
      (trace (Demo.update_regex w)) /\
   regex (priv (state (Demo.update_regex w))) = Some ("\bcat\b", [OPTIMIZE; CASELESS])) /\
  fst (fst (derive_regex Demo.Regex (priv w))) = "\bcat\b" /\
  literal_of (g_regex_escape_string (search_entry (priv w))) = Some "cat".
Proof.
  intros w.
  pose proof (C2_effective_pattern Demo.Regex Demo.GError false Demo.regex_new w) as H.
  cbv zeta in H. destruct H as (Hderive & Hliteral & _ & _ & Hcompile & Hcat).
  split; [repeat split; reflexivity|].
  split; [exact Hderive|].
  split; [apply Hcompile; [reflexivity|discriminate]|].
  split; [exact (proj1 (Hcat eq_refl eq_refl eq_refl))|].
  exact (Hliteral eq_refl).
Defined.

Lemma C3_history_dedup_witness :
  let g := mkGlobal true (Some [Some "world"; Some "hello"]) in
  (gtk_recent_files_enabled g = true /\
   HISTORY_MIN_ITEM_LEN < g_utf8_strlen "hello" /\
   history_rows g = [Some "world"] ++ Some "hello" :: [] /\
   ~ In (Some "hello") [Some "world"]) /\
  history_rows (state (history_insert_item Demo.Regex (Some "hello") g))
  = [Some "hello"; Some "world"] /\
  trace (history_insert_item Demo.Regex (Some "hello") g)
  = [RowDeleted Demo.Regex 1%nat; RowInserted Demo.Regex 0 (Some "hello")].
Proof.
  cbv zeta.
  assert (Hpre : ~ In (Some "hello") [Some "world"])
    by (intros [H|[]]; discriminate H).
  split; [repeat split; try reflexivity; exact Hpre|].
  exact (proj1 (C3_history_dedup Demo.Regex Demo.GError false Demo.regex_new)
           (mkGlobal true (Some [Some "world"; Some "hello"]))
           "hello" [Some "world"] [] eq_refl eq_refl eq_refl Hpre).
Defined.

Lemma C4_history_keeps_nine_rows_witness :
  let insert g s := state (history_insert_item Demo.Regex (Some s) g) in
  let g := fold_left insert
             ["text01"; "text02"; "text03"; "text04"; "text05"; "text06";
              "text07"; "text08"; "text09"]
             (mkGlobal true None) in
  (List.length (history_rows g) = 9%nat /\ ~ In (Some "text10") (history_rows g)) /\
  history_rows (insert g "text10") = Some "text10" :: firstn 8 (history_rows g).
Proof.
  cbv zeta.
  match goal with |- (_ /\ ~ In _ (history_rows ?g0)) /\ _ => set (g := g0) end.
  assert (Hout : ~ In (Some "text10") (history_rows g)).
  { intros H. vm_compute in H.
    repeat (destruct H as [H|H]; [discriminate H|]). exact H. }
  split; [split; [reflexivity|exact Hout]|].
  exact (proj1 (proj2 (C4_history_keeps_nine_rows
                         Demo.Regex Demo.GError false Demo.regex_new))
           g "text10" eq_refl eq_refl Hout eq_refl).
Defined.

Lemma C5_empty_text_gives_no_regex_witness :
  let w := state (Demo.handle_all
                    [EntryEdited "abcd"; SearchChanged; EntryEdited ""] Demo.fresh) in
  (search_entry (priv w) = "" /\
   regex (priv w) = Some ("abcd", [OPTIMIZE; CASELESS])) /\
  terminal_search_popover_get_regex Demo.Regex (state (Demo.update_regex w)) = None /\
  regex_pattern (priv (state (Demo.update_regex w))) = None /\
  trace (Demo.update_regex w) =
    [RegexUnref Demo.Regex ("abcd", [OPTIMIZE; CASELESS]); Notify Demo.Regex PROP_REGEX].
Proof.
  split; [split; reflexivity|].
  exact (C5_empty_text_gives_no_regex Demo.Regex Demo.GError false Demo.regex_new
           false false false false true
           [EntryEdited "abcd"; SearchChanged; EntryEdited ""] eq_refl).
Defined.

Lemma C6_perform_search_witness :
  let w := state (Demo.handle_all [EntryEdited "abcd"; SearchChanged] Demo.fresh) in
  (perform_search Demo.Regex true Demo.fresh = (tt, Demo.fresh, [])) /\
  (regex (priv w) <> None /\ search_text_changed (priv w) = true) /\
  perform_search Demo.Regex false w =
    (tt,
     mkWorld (set_search_text_changed false (priv w))
             (mkGlobal true (Some [Some "abcd"])),
     [RowInserted Demo.Regex 0 (Some "abcd"); SignalEmit Demo.Regex SEARCH false]).
Proof.
  cbv zeta. split; [|split].
  - exact (proj1 (C6_perform_search Demo.Regex Demo.GError false Demo.regex_new
                    Demo.fresh true) eq_refl).
  - split; [discriminate|reflexivity].
  - apply (proj1 (proj2 (C6_perform_search Demo.Regex Demo.GError false Demo.regex_new
                           (state (Demo.handle_all [EntryEdited "abcd"; SearchChanged]
                                     Demo.fresh))
                           false)));
      [discriminate|reflexivity].
Defined.

Lemma C7_history_threshold_witness :
  let g := mkGlobal true (Some [Some "hello"]) in
  (g_utf8_strlen "abc" <= 3 /\ 4 <= g_utf8_strlen "abcd" /\
   gtk_recent_files_enabled g = true) /\
  (history_rows (state (history_insert_item Demo.Regex (Some "abc") g)) = history_rows g /\
   trace (history_insert_item Demo.Regex (Some "abc") g) = []) /\
  (exists rest,
     history_rows (state (history_insert_item Demo.Regex (Some "abcd") g))
     = Some "abcd" :: rest).
Proof.
  cbv zeta.
  assert (Hshort : g_utf8_strlen "abc" <= 3) by (vm_compute; discriminate).
  assert (Hlong : 4 <= g_utf8_strlen "abcd") by (vm_compute; discriminate).
  split; [repeat split; [exact Hshort | exact Hlong]|].
  split.
  - exact (proj1 (C7_history_threshold Demo.Regex
                    (mkGlobal true (Some [Some "hello"])) "abc") Hshort).
  - exact (proj1 (proj2 (C7_history_threshold Demo.Regex
                           (mkGlobal true (Some [Some "hello"])) "abcd"))
             Hlong eq_refl).
Defined.

Lemma C8_compile_failure_swallowed_witness :
  let w := state (Demo.handle_all
                    [EntryEdited "abcd"; SearchChanged; RegexToggled; EntryEdited "(ab"]
                    Demo.fresh) in
  let flags := [OPTIMIZE; CASELESS; MULTILINE] in
  (derive_regex Demo.Regex (priv w) = ("(ab", true, true) /\
   regex_is_cached Demo.Regex (priv w) "(ab" true true = false /\
   search_entry (priv w) <> "" /\
   Demo.regex_new "(ab" flags = inr "unbalanced parentheses" /\
   Demo.refuse_all "(ab" flags = inr 101%nat) /\
  trace (Demo.update_regex w) =
    [RegexUnref Demo.Regex ("abcd", flags);
     RegexNew Demo.Regex "(ab" flags;
     Notify Demo.Regex PROP_REGEX] /\
  terminal_search_popover_get_regex Demo.Regex (state (Demo.update_regex w)) = None /\
  regex_pattern (priv (state (Demo.update_regex w))) = None /\
  search_prev_button (priv (state (Demo.update_regex w))) = false /\
  search_next_button (priv (state (Demo.update_regex w))) = false /\
  update_regex Demo.Regex nat false Demo.refuse_all w = Demo.update_regex w.
Proof.
  cbv zeta. split; [repeat split; try reflexivity; discriminate|].
  apply (C8_compile_failure_swallowed Demo.Regex Demo.GError nat false
           Demo.regex_new Demo.refuse_all
           (state (Demo.handle_all
                     [EntryEdited "abcd"; SearchChanged; RegexToggled; EntryEdited "(ab"]
                     Demo.fresh))
           "(ab" true true "unbalanced parentheses" 101%nat);
    first [reflexivity | discriminate].
Defined.

Lemma C9_notify_whenever_uncached_witness :
  let w := state (Demo.handle_all
                    [RegexToggled; EntryEdited "("; SearchChanged; EntryEdited "(("]
                    Demo.fresh) in
  (derive_regex Demo.Regex (priv w) = ("((", true, true) /\
   (regex_pattern (priv w), regex_caseless (priv w), regex_multiline (priv w))
     <> (Some "((", true, true) /\
   regex (priv w) = None /\ regex_pattern (priv w) = None /\
   Demo.regex_new "((" [OPTIMIZE; CASELESS; MULTILINE] = inr "unbalanced parentheses") /\
  (exists t, trace (Demo.update_regex w) = t ++ [Notify Demo.Regex PROP_REGEX]) /\
  regex (priv (state (Demo.update_regex w))) = None /\
  regex_pattern (priv (state (Demo.update_regex w))) = None.
Proof.
  cbv zeta. split; [repeat split; try reflexivity; discriminate|].
  apply (proj1 (proj2 (C9_notify_whenever_uncached Demo.Regex Demo.GError false
                         Demo.regex_new
                         (state (Demo.handle_all
                                   [RegexToggled; EntryEdited "("; SearchChanged;
                                    EntryEdited "(("]
                                   Demo.fresh))
                         "((" true true eq_refl)));
    [reflexivity | reflexivity |].
  right. exists "unbalanced parentheses". reflexivity.
Defined.

Lemma C10_flag_cleared_without_commit_witness :
  let w := state (Demo.handle_all [EntryEdited "abc"; SearchChanged] Demo.fresh) in
  let es := [NextMatch; MatchCaseToggled; PrevButtonClicked;
             RecentFilesEnabled true; EntryEdited "abcd"; NextMatch] in
  let w1 := state (perform_search Demo.Regex false w) in
  let w2 := state (Demo.handle_all es w1) in
  (regex (priv w) <> None /\ search_text_changed (priv w) = true /\
   ~ In SearchChanged es /\ g_utf8_strlen (search_entry (priv w)) <= 3) /\
  search_text_changed (priv w1) = false /\
  history_rows (global w1) = history_rows (global w) /\
  search_text_changed (priv w2) = false /\
  history_store (global w2) = history_store (global w1).
Proof.
  cbv zeta.
  assert (Hes : ~ In SearchChanged
                    [NextMatch; MatchCaseToggled; PrevButtonClicked;
                     RecentFilesEnabled true; EntryEdited "abcd"; NextMatch]).
  { intros H. repeat (destruct H as [H|H]; [discriminate H|]). exact H. }
  assert (Hshort : g_utf8_strlen "abc" <= 3) by (vm_compute; discriminate).
  split; [repeat split; [discriminate | exact Hes | exact Hshort]|].
  pose proof (C10_flag_cleared_without_commit Demo.Regex Demo.GError false Demo.regex_new
                (state (Demo.handle_all [EntryEdited "abc"; SearchChanged] Demo.fresh))
                false
                [NextMatch; MatchCaseToggled; PrevButtonClicked;
                 RecentFilesEnabled true; EntryEdited "abcd"; NextMatch])
    as H.
  cbv zeta in H.
  destruct H as (H1 & H2 & H3 & H4); [discriminate | reflexivity | exact Hes |].
  split; [exact H1|]. split; [apply H2; right; exact Hshort|].
  split; [exact H3 | exact H4].
Defined.

(** * Further properties *)

(** ** The history store, operation by operation *)

Section HistoryOperations.

Variable Regex : Type.

Local Abbreviation M := (M Regex).
Local Abbreviation history_enabled := (history_enabled Regex).
Local Abbreviation history_remove_item := (history_remove_item Regex).
Local Abbreviation history_clamp_loop := (history_clamp_loop Regex).
Local Abbreviation history_clamp := (history_clamp Regex).
Local Abbreviation history_insert_item := (history_insert_item Regex).
Local Abbreviation gtk_list_store_remove := (gtk_list_store_remove Regex).

(** The loop of [history_clamp] in full: one [row-deleted] per row from
    [iter] on, all at position [iter]. *)
Lemma history_clamp_loop_eq (rounds : nat) :
  forall (g : Global) (iter : GtkTreeIter),
    (iter < List.length (history_rows g))%nat ->
    (List.length (history_rows g) - iter <= rounds)%nat ->
    history_clamp_loop rounds iter g =
      (tt,
       set_history_store (Some (firstn iter (history_rows g))) g,
       repeat (RowDeleted Regex iter) (List.length (history_rows g) - iter)).
Proof.
  induction rounds as [|rounds IH]; intros g iter Hlt Hrounds; [lia|].
  change (history_clamp_loop (S rounds) iter) with
    (bind (gtk_list_store_remove iter)
       (fun valid : bool => if valid then history_clamp_loop rounds iter else ret tt)).
  unfold bind. rewrite gtk_list_store_remove_eq.
  destruct (S iter <? List.length (history_rows g))%nat eqn:E.
  - apply Nat.ltb_lt in E.
    rewrite (IH (set_history_store (Some (remove_row iter (history_rows g))) g) iter);
      rewrite ?history_rows_set, ?remove_row_length; try lia.
    rewrite remove_row_firstn, set_history_store_twice.
    replace (List.length (history_rows g) - iter)%nat
      with (S (List.length (history_rows g) - 1 - iter)) by lia.
    reflexivity.
  - apply Nat.ltb_ge in E. cbn. rewrite remove_row_last by lia.
    replace (List.length (history_rows g) - iter)%nat with 1%nat by lia.
    reflexivity.
Qed.

Lemma history_clamp_eq (max : Z) (g : Global) :
  0 < max ->
  history_clamp max g =
    if max <=? Z.of_nat (List.length (history_rows g))
    then (tt,
          set_history_store (Some (firstn (Z.to_nat (max - 1)) (history_rows g))) g,
          repeat (RowDeleted Regex (Z.to_nat (max - 1)))
                 (List.length (history_rows g) - Z.to_nat (max - 1)))
    else (tt, g, []).
Proof.
  intros Hmax. unfold history_clamp, bind, get, gtk_tree_model_get_iter.
  destruct (max <=? Z.of_nat (List.length (history_rows g))) eqn:E.
  - apply Z.leb_le in E.
    replace ((0 <=? max - 1) && (max - 1 <? Z.of_nat (List.length (history_rows g))))
      with true by (symmetry; apply andb_true_iff; split; [apply Z.leb_le|apply Z.ltb_lt]; lia).
    rewrite (history_clamp_loop_eq (List.length (history_rows g)) g (Z.to_nat (max - 1)))
      by lia.
    reflexivity.
  - apply Z.leb_gt in E.
    replace (max - 1 <? Z.of_nat (List.length (history_rows g))) with false
      by (symmetry; apply Z.ltb_ge; lia).
    rewrite andb_false_r. reflexivity.
Qed.

(** A new eligible text, in full. *)
Lemma history_insert_item_new_eq (s : string) (g : Global) :
  gtk_recent_files_enabled g = true ->
  HISTORY_MIN_ITEM_LEN < g_utf8_strlen s ->
  ~ In (Some s) (history_rows g) ->
  history_insert_item (Some s) g =
    if (9 <=? List.length (history_rows g))%nat
    then (tt,
          set_history_store (Some (Some s :: firstn 8 (history_rows g))) g,
          repeat (RowDeleted Regex 8%nat) (List.length (history_rows g) - 8)
          ++ [RowInserted Regex 0 (Some s)])
    else (tt,
          set_history_store (Some (Some s :: history_rows g)) g,
          [RowInserted Regex 0 (Some s)]).
Proof.
  intros Hen Hlen Habsent. rewrite history_insert_item_eq. cbv zeta.
  rewrite Hen. replace (g_utf8_strlen s <=? HISTORY_MIN_ITEM_LEN) with false
    by (symmetry; apply Z.leb_gt; exact Hlen).
  cbn [andb negb]. unfold bind at 1.
  rewrite (history_remove_item_absent Regex) by exact Habsent.
  cbn [negb]. unfold bind at 1. change (HISTORY_LENGTH - 1) with 9.
  rewrite history_clamp_eq by lia. rewrite history_rows_set.
  replace (9 <=? Z.of_nat (List.length (history_rows g)))
    with (9 <=? List.length (history_rows g))%nat.
  2: { destruct (9 <=? List.length (history_rows g))%nat eqn:E; symmetry.
       - apply Nat.leb_le in E. apply Z.leb_le. lia.
       - apply Nat.leb_gt in E. apply Z.leb_gt. lia. }
  destruct (9 <=? List.length (history_rows g))%nat; reflexivity.
Qed.

Lemma insertions_app (t1 t2 : list (Event Regex)) :
  insertions (t1 ++ t2) = (insertions t1 + insertions t2)%nat.
Proof. unfold insertions. rewrite filter_app, length_app. reflexivity. Qed.

Lemma insertions_deleted (iter : GtkTreeIter) (n : nat) :
  insertions (repeat (RowDeleted Regex iter) n) = 0%nat.
Proof. induction n as [|n IH]; [reflexivity|exact IH]. Qed.

Lemma row_events_deleted (iter : GtkTreeIter) (n : nat) :
  Forall (fun ev => is_row_event ev = true) (repeat (RowDeleted Regex iter) n).
Proof. induction n as [|n IH]; constructor; [reflexivity|exact IH]. Qed.

(** Whatever an insertion does, it keeps the setting, signals through
    the list store only, puts in at most one row, and every row of the
    outcome is an old row or the text just accepted. *)
Lemma history_insert_item_shape (text : option string) (g : Global) :
  let r := history_insert_item text g in
  gtk_recent_files_enabled (state r) = gtk_recent_files_enabled g /\
  Forall (fun ev => is_row_event ev = true) (trace r) /\
  (insertions (trace r) <= 1)%nat /\
  (forall x, In x (history_rows (state r)) ->
     In x (history_rows g) \/
     exists s, x = Some s /\ text = Some s /\ HISTORY_MIN_ITEM_LEN < g_utf8_strlen s).
Proof.
  cbv zeta. destruct text as [s|].
  2: { rewrite history_insert_item_eq. destruct g as [[|] [rows|]];
         repeat split; try constructor; auto. }
  destruct (history_insert_item_cases s g)
    as [Href | (Hen & Hlen & [(pre & post & Hrows & Hpre) | Hout])].
  - rewrite history_insert_item_eq. cbv zeta.
    replace (gtk_recent_files_enabled g && negb (g_utf8_strlen s <=? HISTORY_MIN_ITEM_LEN))
      with false.
    + destruct g as [[|] [rows|]]; repeat split; try constructor; auto.
    + symmetry. destruct Href as [H|H].
      * rewrite H. reflexivity.
      * apply Z.leb_le in H. rewrite H. apply andb_false_r.
  - rewrite (history_insert_item_present Regex s pre post g Hen Hlen Hrows Hpre).
    rewrite state_triple, trace_triple, history_rows_set.
    split; [reflexivity|]. split; [repeat constructor|]. split; [cbn; lia|].
    intros x [<- | HIn].
    + right. exists s. repeat split. exact Hlen.
    + left. rewrite Hrows. apply in_app_or in HIn. apply in_or_app.
      destruct HIn as [H|H]; [left; exact H | right; right; exact H].
  - rewrite (history_insert_item_new_eq s g Hen Hlen Hout).
    destruct (9 <=? List.length (history_rows g))%nat;
      rewrite state_triple, trace_triple, history_rows_set.
    + split; [reflexivity|]. split.
      { apply Forall_app. split; [apply row_events_deleted|repeat constructor]. }
      split. { rewrite insertions_app, insertions_deleted. cbn. lia. }
      intros x [<- | HIn].
      * right. exists s. repeat split. exact Hlen.
      * left. exact (In_firstn _ _ _ HIn).
    + split; [reflexivity|]. split; [repeat constructor|]. split; [cbn; lia|].
      intros x [<- | HIn].
      * right. exists s. repeat split. exact Hlen.
      * left. exact HIn.
Qed.

(** X1.  [history_clamp max], for a positive [max], keeps the first
    [max - 1] rows and nothing else, deleting the others one by one at
    position [max - 1]; a store shorter than [max] is left alone.  The loop
    always leaves through its [break]: more rounds than rows change
    nothing. *)
Theorem history_clamp_keeps_prefix (max : Z) (g : Global) :
  0 < max ->
  let keep := Z.to_nat (max - 1) in
  let r := history_clamp max g in
  history_rows (state r) = firstn keep (history_rows g) /\
  trace r = repeat (RowDeleted Regex keep) (List.length (history_rows g) - keep) /\
  gtk_recent_files_enabled (state r) = gtk_recent_files_enabled g /\
  (forall rounds : nat,
     (keep < List.length (history_rows g))%nat ->
     (List.length (history_rows g) <= rounds)%nat ->
     history_clamp_loop rounds keep g = r).
Proof.
  intros Hmax. cbv zeta. rewrite history_clamp_eq by exact Hmax.
  destruct (max <=? Z.of_nat (List.length (history_rows g))) eqn:E.
  - apply Z.leb_le in E. rewrite state_triple, trace_triple, history_rows_set.
    repeat split. intros rounds Hlt Hrounds.
    apply history_clamp_loop_eq; lia.
  - apply Z.leb_gt in E. rewrite state_triple, trace_triple.
    split; [symmetry; apply firstn_all2; lia|].
    split; [replace (List.length (history_rows g) - Z.to_nat (max - 1))%nat
              with 0%nat by lia; reflexivity|].
    split; [reflexivity|]. intros rounds Hlt Hrounds. lia.
Qed.

(** X2.  [history_remove_item] returns TRUE exactly when the text is in
    the store; it then deletes one row, the first that holds the text, and
    keeps the others in order.  When the text is absent it changes and
    signals nothing. *)
Theorem history_remove_item_first_match (text : string) (g : Global) :
  (result (history_remove_item text g) = true <-> In (Some text) (history_rows g)) /\
  (forall pre post,
     history_rows g = pre ++ Some text :: post ->
     ~ In (Some text) pre ->
     history_rows (state (history_remove_item text g)) = pre ++ post /\
     trace (history_remove_item text g) = [RowDeleted Regex (List.length pre)]) /\
  (~ In (Some text) (history_rows g) ->
   history_remove_item text g = (false, g, [])).
Proof.
  assert (D : forall a b : option string, {a = b} + {a <> b}).
  { decide equality. apply String.string_dec. }
  split; [|split].
  - destruct (in_dec D (Some text) (history_rows g)) as [HIn|Hout].
    + destruct (in_split_first _ _ HIn) as (pre & post & Hrows & Hpre).
      rewrite (history_remove_item_present Regex text pre post g Hrows Hpre).
      split; [intros _; exact HIn | reflexivity].
    + rewrite (history_remove_item_absent Regex text g Hout).
      split; [discriminate | contradiction].
  - intros pre post Hrows Hpre.
    rewrite (history_remove_item_present Regex text pre post g Hrows Hpre).
    split; reflexivity.
  - apply history_remove_item_absent.
Qed.

(** X3.  Inserting the same text twice in a row leaves the rows as one
    insertion does; and a text that was accepted is found again by the
    search of [history_remove_item] in the first row. *)
Theorem history_insert_item_idempotent (text : option string) (g : Global) :
  let once := state (history_insert_item text g) in
  let twice := state (history_insert_item text once) in
  history_rows twice = history_rows once /\
  (forall s, text = Some s ->
     gtk_recent_files_enabled g = true ->
     HISTORY_MIN_ITEM_LEN < g_utf8_strlen s ->
     history_find s (history_rows once) 0%nat = Some 0%nat).
Proof.
  cbv zeta.
  assert (Hfront : forall s, text = Some s ->
            gtk_recent_files_enabled g = true ->
            HISTORY_MIN_ITEM_LEN < g_utf8_strlen s ->
            exists rest,
              history_rows (state (history_insert_item text g)) = Some s :: rest).
  { intros s -> Hen Hlen.
    destruct (history_insert_item_cases s g)
      as [[Hoff | Hshort] | (_ & _ & [(pre & post & Hrows & Hpre) | Hout])].
    - congruence.
    - lia.
    - rewrite (history_insert_item_present Regex s pre post g Hen Hlen Hrows Hpre).
      eexists. reflexivity.
    - rewrite (history_insert_item_new Regex s g Hen Hlen Hout).
      eexists. reflexivity. }
  split.
  - destruct text as [s|].
    2: { apply (history_insert_item_none Regex). }
    pose proof (proj1 (history_insert_item_shape (Some s) g)) as Hsame.
    cbv zeta in Hsame.
    destruct (history_insert_item_cases s g)
      as [Href | (Hen & Hlen & _)].
    + apply (history_insert_item_refused Regex).
      rewrite Hsame. exact Href.
    + destruct (Hfront s eq_refl Hen Hlen) as (rest & Hrows).
      rewrite (history_insert_item_present Regex s [] rest
                 (state (history_insert_item (Some s) g)));
        [rewrite state_triple, history_rows_set; symmetry; exact Hrows
        | rewrite Hsame; exact Hen | exact Hlen | exact Hrows | intros []].
  - intros s Htext Hen Hlen.
    destruct (Hfront s Htext Hen Hlen) as (rest & ->).
    cbn [history_find]. rewrite strcmp_refl. reflexivity.
Qed.

End HistoryOperations.

(** ** The popover, handler by handler *)

Section PopoverOperations.

Variables Regex GError : Type.
Variable WITH_PCRE2 : bool.
Variable regex_new : string -> list CompileFlag -> Regex + GError.

Local Abbreviation M := (M Regex).
Local Abbreviation World := (World Regex).
Local Abbreviation Priv := (TerminalSearchPopoverPrivate Regex).
Local Abbreviation derive_regex := (derive_regex Regex).
Local Abbreviation regex_is_cached := (regex_is_cached Regex).
Local Abbreviation compile_flags := (compile_flags WITH_PCRE2).
Local Abbreviation perform_search := (perform_search Regex).
Local Abbreviation update_regex := (update_regex Regex GError WITH_PCRE2 regex_new).
Local Abbreviation handle := (handle Regex GError WITH_PCRE2 regex_new).
Local Abbreviation handle_all := (handle_all Regex GError WITH_PCRE2 regex_new).
Local Abbreviation fresh_world := (fresh_world Regex).
Local Abbreviation history_insert_item := (history_insert_item Regex).
Local Abbreviation terminal_search_popover_finalize :=
  (terminal_search_popover_finalize Regex).
Local Abbreviation terminal_search_popover_get_property :=
  (terminal_search_popover_get_property Regex).
Local Abbreviation terminal_search_popover_set_property :=
  (terminal_search_popover_set_property Regex).
Local Abbreviation terminal_search_popover_get_regex :=
  (terminal_search_popover_get_regex Regex).

(** *** Handlers in terms of the two workers *)

Lemma handle_toggle_eq (e : UiEvent) (w : World) :
  e = MatchCaseToggled \/ e = EntireWordToggled \/ e = RegexToggled ->
  handle e w = update_regex (mkWorld (flip_toggle e (priv w)) (global w)).
Proof.
  intros [-> | [-> | ->]]; unfold handle, search_parameters_changed_cb, bind, modify_priv;
    apply nil_trace_bind.
Qed.

Lemma handle_search_changed_eq (w : World) :
  handle SearchChanged w =
    (tt,
     mkWorld (set_search_text_changed true (priv (state (update_regex w))))
             (global (state (update_regex w))),
     trace (update_regex w)).
Proof.
  unfold handle, search_text_changed_cb, bind, modify_priv.
  destruct (update_regex w) as [[u w1] t]. cbn. rewrite app_nil_r. reflexivity.
Qed.

(** Where a handler leaves the process-wide state: as it was, as the
    insertion of [perform_search] left it, or with the setting changed. *)
Lemma update_regex_global (w : World) :
  global (state (update_regex w)) = global w.
Proof. apply (update_regex_frame Regex GError WITH_PCRE2 regex_new). Qed.

Lemma handle_global (e : UiEvent) (w : World) :
  global (state (handle e w)) = global w \/
  (exists backward, handle e w = perform_search backward w) \/
  (exists enabled,
     e = RecentFilesEnabled enabled /\
     handle e w = (tt, mkWorld (priv w) (mkGlobal enabled (history_store (global w))), [])).
Proof.
  destruct e;
    try (left; reflexivity);
    try (right; left; eexists; reflexivity);
    try (right; right; eexists; split; reflexivity).
  - left. rewrite handle_search_changed_eq, state_triple. cbn [global].
    apply update_regex_global.
  - left. rewrite handle_toggle_eq by auto.
    exact (update_regex_global (mkWorld _ (global w))).
  - left. rewrite handle_toggle_eq by auto.
    exact (update_regex_global (mkWorld _ (global w))).
  - left. rewrite handle_toggle_eq by auto.
    exact (update_regex_global (mkWorld _ (global w))).
Qed.

Lemma perform_search_global (backward : bool) (w : World) :
  global (state (perform_search backward w)) = global w \/
  global (state (perform_search backward w)) =
    state (history_insert_item (Some (search_entry (priv w))) (global w)).
Proof.
  rewrite perform_search_eq.
  destruct (regex (priv w)); [|left; reflexivity].
  destruct (search_text_changed (priv w)); [right|left]; reflexivity.
Qed.

Lemma handle_all_cons (e : UiEvent) (es : list UiEvent) (w : World) :
  state (handle_all (e :: es) w) = state (handle_all es (state (handle e w))) /\
  trace (handle_all (e :: es) w) =
    trace (handle e w) ++ trace (handle_all es (state (handle e w))).
Proof.
  change (handle_all (e :: es)) with (bind (handle e) (fun _ => handle_all es)).
  rewrite state_bind, trace_bind. split; reflexivity.
Qed.

(** *** The history seen from the popover *)

Lemma history_insert_item_disabled (text : option string) (g : Global) :
  gtk_recent_files_enabled g = false ->
  history_insert_item text g = (tt, g, []).
Proof.
  intros Hoff. rewrite history_insert_item_eq. cbv zeta. rewrite Hoff.
  destruct text; reflexivity.
Qed.

(** X4.  Every row of a history the user can bring about holds a text,
    never NULL, of more than three code points. *)
Theorem history_rows_eligible
  (match_case entire_word use_regex wrap_around enabled : bool)
  (es : list UiEvent) :
  Forall (fun row => exists s, row = Some s /\ HISTORY_MIN_ITEM_LEN < g_utf8_strlen s)
    (history_rows (global (state (handle_all es
       (fresh_world match_case entire_word use_regex wrap_around enabled))))).
Proof.
  set (good := fun row : option string =>
                 exists s, row = Some s /\ HISTORY_MIN_ITEM_LEN < g_utf8_strlen s).
  assert (Hstep : forall e w, Forall good (history_rows (global w)) ->
                    Forall good (history_rows (global (state (handle e w))))).
  { intros e w Hw.
    destruct (handle_global e w) as [-> | [(b & ->) | (en & _ & ->)]];
      [exact Hw | | exact Hw].
    destruct (perform_search_global b w) as [-> | ->]; [exact Hw|].
    apply Forall_forall. intros x Hx.
    destruct (proj2 (proj2 (proj2 (history_insert_item_shape Regex _ _))) x Hx)
      as [Hold | (s & -> & _ & Hlen)].
    - exact (proj1 (Forall_forall _ _) Hw x Hold).
    - exists s. split; [reflexivity|exact Hlen]. }
  assert (Hall : forall es w, Forall good (history_rows (global w)) ->
                   Forall good (history_rows (global (state (handle_all es w))))).
  { clear es. induction es as [|e es IH]; intros w Hw; [exact Hw|].
    rewrite (proj1 (handle_all_cons e es w)). apply IH. apply Hstep. exact Hw. }
  apply Hall. destruct enabled; constructor.
Qed.

(** X5.  While [gtk-recent-files-enabled] is off and stays off, no history
    store is created: [history_store] is still NULL after any run of
    handlers. *)
Theorem history_disabled_no_store
  (match_case entire_word use_regex wrap_around : bool) (es : list UiEvent) :
  ~ In (RecentFilesEnabled true) es ->
  let w := state (handle_all es
             (fresh_world match_case entire_word use_regex wrap_around false)) in
  history_store (global w) = None /\
  gtk_recent_files_enabled (global w) = false /\
  Forall (fun ev => is_row_event ev = false)
    (trace (handle_all es
       (fresh_world match_case entire_word use_regex wrap_around false))).
Proof.
  intros Hes. cbv zeta.
  set (off := fun g : Global =>
                history_store g = None /\ gtk_recent_files_enabled g = false).
  assert (Hstep : forall e w, e <> RecentFilesEnabled true -> off (global w) ->
                    off (global (state (handle e w))) /\
                    Forall (fun ev => is_row_event ev = false) (trace (handle e w))).
  { intros e w He (Hstore & Hoff).
    assert (Hsearch : forall b, perform_search b w = (tt, w, []) \/
              exists p', perform_search b w =
                           (tt, mkWorld p' (global w), [SignalEmit Regex SEARCH b])).
    { intros b. rewrite perform_search_eq.
      destruct (regex (priv w)); [|left; reflexivity].
      destruct (search_text_changed (priv w)).
      - rewrite (history_insert_item_disabled _ _ Hoff). cbv zeta.
        right. eexists. reflexivity.
      - right. exists (priv w). destruct w; reflexivity. }
    assert (Hupdate : forall w', global w' = global w ->
              off (global (state (update_regex w'))) /\
              Forall (fun ev => is_row_event ev = false) (trace (update_regex w'))).
    { intros w' Hg.
      rewrite (update_regex_global w'), Hg.
      split; [split; assumption|].
      destruct (let '(pattern, caseless, multiline) := derive_regex (priv w') in
                regex_is_cached (priv w') pattern caseless multiline) eqn:Hhit.
      - rewrite (update_regex_cached _ _ _ _ w' Hhit). constructor.
      - rewrite (update_regex_uncached _ _ _ _ w' Hhit). cbv zeta.
        destruct (derive_regex (priv w')) as [[pattern c] m].
        rewrite trace_triple. unfold released.
        destruct (regex (priv w')), (search_entry (priv w')); repeat constructor. }
    assert (Hsearch' : forall b,
              off (global (state (perform_search b w))) /\
              Forall (fun ev => is_row_event ev = false) (trace (perform_search b w))).
    { intros b. destruct (Hsearch b) as [E | (p' & E)]; rewrite E;
        (split; [split; assumption | repeat constructor]). }
    destruct e.
    - split; [split; assumption | constructor].
    - rewrite handle_search_changed_eq, state_triple, trace_triple. cbn [global].
      apply Hupdate. reflexivity.
    - rewrite handle_toggle_eq by auto. apply Hupdate. reflexivity.
    - rewrite handle_toggle_eq by auto. apply Hupdate. reflexivity.
    - rewrite handle_toggle_eq by auto. apply Hupdate. reflexivity.
    - split; [split; assumption | repeat constructor].
    - exact (Hsearch' true).
    - exact (Hsearch' false).
    - exact (Hsearch' true).
    - exact (Hsearch' false).
    - split; [split; assumption | repeat constructor].
    - destruct enabled; [contradiction He; reflexivity|].
      split; [split; [exact Hstore|reflexivity] | constructor]. }
  assert (Hall : forall es w, ~ In (RecentFilesEnabled true) es -> off (global w) ->
                   off (global (state (handle_all es w))) /\
                   Forall (fun ev => is_row_event ev = false) (trace (handle_all es w))).
  { clear es Hes. induction es as [|e es IH]; intros w Hes Hw.
    - split; [exact Hw | constructor].
    - destruct (handle_all_cons e es w) as (-> & ->).
      destruct (Hstep e w) as (Hw' & Ht); [intros ->; apply Hes; left; reflexivity|exact Hw|].
      destruct (IH (state (handle e w))) as (Hw'' & Ht');
        [intros HIn; apply Hes; right; exact HIn | exact Hw' |].
      split; [exact Hw''|]. apply Forall_app. split; assumption. }
  destruct (Hall es (fresh_world match_case entire_word use_regex wrap_around false) Hes)
    as ((Hstore & Hoff) & Ht).
  - split; reflexivity.
  - repeat split; assumption.
Qed.

(** *** The search buttons *)

(** X6.  In every state the user can bring about the two search buttons
    are sensitive together, and exactly while a matcher is held; so a click
    on a sensitive button always ends in the [search] signal, and
    [perform_search] on an insensitive one does nothing at all. *)
Theorem search_buttons_follow_regex
  (match_case entire_word use_regex wrap_around enabled : bool)
  (es : list UiEvent) (backward : bool) :
  let w := state (handle_all es
             (fresh_world match_case entire_word use_regex wrap_around enabled)) in
  search_next_button (priv w) = search_prev_button (priv w) /\
  (search_prev_button (priv w) = true <->
   terminal_search_popover_get_regex w <> None) /\
  (search_prev_button (priv w) = true ->
   exists t, trace (perform_search backward w) =
               t ++ [SignalEmit Regex SEARCH backward]) /\
  (search_prev_button (priv w) = false ->
   perform_search backward w = (tt, w, [])).
Proof.
  cbv zeta.
  pose proof (reachable_inv Regex GError WITH_PCRE2 regex_new
                match_case entire_word use_regex wrap_around enabled es)
    as (_ & _ & _ & _ & (Hprev & Hnext) & _).
  set (w := state (handle_all es _)) in *.
  unfold terminal_search_popover_get_regex.
  rewrite perform_search_eq. rewrite Hprev.
  split; [rewrite Hnext; exact Hprev|].
  destruct (regex (priv w)) as [r|].
  - split; [split; [discriminate|reflexivity]|]. split; [|discriminate].
    intros _. destruct (search_text_changed (priv w)).
    + eexists. reflexivity.
    + exists []. reflexivity.
  - split; [split; [discriminate|intros H; contradiction H; reflexivity]|].
    split; [discriminate|reflexivity].
Qed.

(** *** The matcher and the cached pattern *)

(** X7.  In every state the user can bring about a matcher is held
    exactly while a pattern is cached, and the matcher held is what the
    engine returned for the cached pattern under some choice of the
    caseless and multiline flags. *)
Theorem matcher_comes_from_cached_pattern
  (match_case entire_word use_regex wrap_around enabled : bool)
  (es : list UiEvent) :
  let w := state (handle_all es
             (fresh_world match_case entire_word use_regex wrap_around enabled)) in
  (regex (priv w) = None <-> regex_pattern (priv w) = None) /\
  (forall r, regex (priv w) = Some r ->
     exists pattern caseless multiline,
       regex_pattern (priv w) = Some pattern /\
       regex_new pattern (compile_flags caseless multiline) = inl r).
Proof.
  cbv zeta. split.
  { apply (reachable_inv Regex GError WITH_PCRE2 regex_new). }
  set (J := fun w : World =>
              forall r, regex (priv w) = Some r ->
                exists pattern caseless multiline,
                  regex_pattern (priv w) = Some pattern /\
                  regex_new pattern (compile_flags caseless multiline) = inl r).
  assert (Hext : forall w w', J w -> regex (priv w') = regex (priv w) ->
                   regex_pattern (priv w') = regex_pattern (priv w) -> J w').
  { intros w w' Hw Hr Hp r Hheld. rewrite Hr in Hheld. rewrite Hp. exact (Hw r Hheld). }
  assert (Hupdate : forall w, J w -> J (state (update_regex w))).
  { intros w Hw.
    destruct (let '(pattern, caseless, multiline) := derive_regex (priv w) in
              regex_is_cached (priv w) pattern caseless multiline) eqn:Hhit.
    - rewrite (update_regex_cached _ _ _ _ w Hhit). exact Hw.
    - rewrite (update_regex_uncached _ _ _ _ w Hhit). cbv zeta.
      destruct (derive_regex (priv w)) as [[pattern c] m].
      rewrite state_triple. intros r. cbn [priv regex regex_pattern].
      destruct (search_entry (priv w)); [discriminate|].
      destruct (regex_new pattern (compile_flags c m)) as [r'|err] eqn:E;
        [|discriminate].
      intros Hr. injection Hr as <-. exists pattern, c, m. split; [reflexivity|exact E]. }
  assert (Hsearch : forall b w, J w -> J (state (perform_search b w))).
  { intros b w Hw. rewrite perform_search_eq.
    destruct (regex (priv w)) eqn:Hr; [|exact Hw].
    destruct (search_text_changed (priv w)); [|exact Hw].
    apply (Hext w); [exact Hw | reflexivity | reflexivity]. }
  assert (Hstep : forall e w, J w -> J (state (handle e w))).
  { intros e w Hw. destruct e;
      try (apply (Hext w); [exact Hw | reflexivity | reflexivity]).
    - rewrite handle_search_changed_eq, state_triple.
      apply (Hext (state (update_regex w))); [apply Hupdate; exact Hw | | ]; reflexivity.
    - rewrite handle_toggle_eq by auto. apply Hupdate.
      apply (Hext w); [exact Hw | reflexivity | reflexivity].
    - rewrite handle_toggle_eq by auto. apply Hupdate.
      apply (Hext w); [exact Hw | reflexivity | reflexivity].
    - rewrite handle_toggle_eq by auto. apply Hupdate.
      apply (Hext w); [exact Hw | reflexivity | reflexivity].
    - exact (Hsearch true w Hw).
    - exact (Hsearch false w Hw).
    - exact (Hsearch true w Hw).
    - exact (Hsearch false w Hw). }
  assert (Hall : forall es w, J w -> J (state (handle_all es w))).
  { clear es. induction es as [|e es IH]; intros w Hw; [exact Hw|].
    rewrite (proj1 (handle_all_cons e es w)). apply IH. apply Hstep. exact Hw. }
  apply Hall. intros r Hr. destruct enabled; discriminate Hr.
Qed.

(** *** Counting matchers *)

Lemma acquisitions_app (t1 t2 : list (Event Regex)) :
  acquisitions regex_new (t1 ++ t2) =
  (acquisitions regex_new t1 + acquisitions regex_new t2)%nat.
Proof. unfold acquisitions. rewrite filter_app, length_app. reflexivity. Qed.

Lemma releases_app (t1 t2 : list (Event Regex)) :
  releases (t1 ++ t2) = (releases t1 + releases t2)%nat.
Proof. unfold releases. rewrite filter_app, length_app. reflexivity. Qed.

Lemma row_events_hold_no_matcher (t : list (Event Regex)) :
  Forall (fun ev => is_row_event ev = true) t ->
  acquisitions regex_new t = 0%nat /\ releases t = 0%nat.
Proof.
  induction 1 as [|ev t Hev _ (IHa & IHr)]; [split; reflexivity|].
  destruct ev; try discriminate Hev; split; assumption.
Qed.

Lemma update_regex_balance (w : World) :
  (acquisitions regex_new (trace (update_regex w)) + held w)%nat =
  (releases (trace (update_regex w)) + held (state (update_regex w)))%nat.
Proof.
  destruct (let '(pattern, caseless, multiline) := derive_regex (priv w) in
            regex_is_cached (priv w) pattern caseless multiline) eqn:Hhit.
  - rewrite (update_regex_cached _ _ _ _ w Hhit). reflexivity.
  - rewrite (update_regex_uncached _ _ _ _ w Hhit). cbv zeta.
    destruct (derive_regex (priv w)) as [[pattern c] m].
    rewrite trace_triple, state_triple.
    rewrite !acquisitions_app, !releases_app. unfold held, released. cbn [priv regex].
    destruct (regex (priv w)), (search_entry (priv w)); cbn;
      try destruct (regex_new pattern (compile_flags c m)); reflexivity.
Qed.

Lemma perform_search_balance (backward : bool) (w : World) :
  acquisitions regex_new (trace (perform_search backward w)) = 0%nat /\
  releases (trace (perform_search backward w)) = 0%nat /\
  held (state (perform_search backward w)) = held w.
Proof.
  rewrite perform_search_eq. unfold held.
  destruct (regex (priv w)) eqn:Hr;
    [|rewrite trace_triple, state_triple, Hr; repeat split].
  destruct (search_text_changed (priv w));
    [|rewrite trace_triple, state_triple, Hr; repeat split].
  cbv zeta. rewrite trace_triple, state_triple, acquisitions_app, releases_app.
  destruct (row_events_hold_no_matcher _
              (proj1 (proj2 (history_insert_item_shape Regex
                               (Some (search_entry (priv w))) (global w)))))
    as (-> & ->).
  cbn. rewrite Hr. repeat split.
Qed.

Lemma handle_balance (e : UiEvent) (w : World) :
  (acquisitions regex_new (trace (handle e w)) + held w)%nat =
  (releases (trace (handle e w)) + held (state (handle e w)))%nat.
Proof.
  assert (Hsearch : forall b,
            (acquisitions regex_new (trace (perform_search b w)) + held w)%nat =
            (releases (trace (perform_search b w)) + held (state (perform_search b w)))%nat).
  { intros b. destruct (perform_search_balance b w) as (-> & -> & ->). reflexivity. }
  destruct e; try reflexivity; try apply Hsearch.
  - rewrite handle_search_changed_eq, trace_triple, state_triple.
    exact (update_regex_balance w).
  - rewrite handle_toggle_eq by auto.
    exact (update_regex_balance (mkWorld _ (global w))).
  - rewrite handle_toggle_eq by auto.
    exact (update_regex_balance (mkWorld _ (global w))).
  - rewrite handle_toggle_eq by auto.
    exact (update_regex_balance (mkWorld _ (global w))).
Qed.

(** X8.  Over any run of handlers the matchers obtained from the engine
    and the matchers released differ by the one that is held: nothing
    leaks and nothing is released twice.  A popover that started without a
    matcher and is finalised at the end has released as many as it
    obtained. *)
Theorem matcher_references_balance (es : list UiEvent) (w : World) :
  let r := handle_all es w in
  let f := terminal_search_popover_finalize (state r) in
  (acquisitions regex_new (trace r) + held w)%nat =
    (releases (trace r) + held (state r))%nat /\
  (regex (priv w) = None ->
   acquisitions regex_new (trace r ++ trace f) = releases (trace r ++ trace f)).
Proof.
  cbv zeta.
  assert (Hall : forall es w,
            (acquisitions regex_new (trace (handle_all es w)) + held w)%nat =
            (releases (trace (handle_all es w)) + held (state (handle_all es w)))%nat).
  { clear es w. induction es as [|e es IH]; intros w; [reflexivity|].
    destruct (handle_all_cons e es w) as (-> & ->).
    rewrite acquisitions_app, releases_app.
    pose proof (handle_balance e w). pose proof (IH (state (handle e w))). lia. }
  split; [apply Hall|].
  intros Hnone. pose proof (Hall es w) as H.
  rewrite acquisitions_app, releases_app.
  unfold held in H. rewrite Hnone in H.
  unfold terminal_search_popover_finalize, bind, get_priv.
  destruct (regex (priv (state (handle_all es w)))); cbn; lia.
Qed.

(** *** What [update_regex] and [perform_search] leave alone *)

(** X11.  [update_regex] writes the cached pattern, the matcher and the
    sensitivity of the search buttons, and nothing else: not the history,
    not the dirty flag, not the entry, not a check button, not the cached
    flags.  Either it does nothing at all, or it releases the matcher it
    held, calls the engine at most once and ends with one notification of
    [regex]. *)
Theorem update_regex_writes_cache_only (w : World) :
  let r := update_regex w in
  global (state r) = global w /\
  set_sensitive (search_prev_button (priv w)) (search_next_button (priv w))
    (set_regex_pattern (regex_pattern (priv w))
       (set_regex (regex (priv w)) (priv (state r)))) = priv w /\
  ((trace r = [] /\ state r = w) \/
   exists call,
     trace r = released (priv w) ++ call ++ [Notify Regex PROP_REGEX] /\
     (call = [] \/ exists pattern flags, call = [RegexNew Regex pattern flags])).
Proof.
  cbv zeta.
  destruct (let '(pattern, caseless, multiline) := derive_regex (priv w) in
            regex_is_cached (priv w) pattern caseless multiline) eqn:Hhit.
  - rewrite (update_regex_cached _ _ _ _ w Hhit), state_triple, trace_triple.
    split; [reflexivity|]. split; [destruct w as [[] g]; reflexivity|].
    left. split; reflexivity.
  - rewrite (update_regex_uncached _ _ _ _ w Hhit). cbv zeta.
    destruct (derive_regex (priv w)) as [[pattern c] m].
    rewrite state_triple, trace_triple.
    split; [reflexivity|]. split; [destruct w as [[] g]; reflexivity|].
    right. eexists. split; [reflexivity|].
    destruct (search_entry (priv w)); [left; reflexivity|].
    right. eexists. eexists. reflexivity.
Qed.

Lemma filter_row_events (t : list (Event Regex)) :
  Forall (fun ev => is_row_event ev = true) t ->
  filter (fun ev => negb (is_row_event ev)) t = [].
Proof.
  induction 1 as [|ev t Hev _ IH]; [reflexivity|].
  cbn. rewrite Hev. exact IH.
Qed.

(** X10.  [perform_search] changes nothing of the popover but the dirty
    flag: pattern cache, matcher, buttons and entry stay as they are.  Apart
    from what the history store signals, its trace is the [search] signal
    with the direction asked for when a matcher is held, and empty
    otherwise; the engine is never called.  [previous-match] and the
    previous button search backward, [next-match] and the next button
    forward. *)
Theorem perform_search_writes_flag_only (backward : bool) (w : World) :
  let r := perform_search backward w in
  set_search_text_changed (search_text_changed (priv w)) (priv (state r)) = priv w /\
  filter (fun ev => negb (is_row_event ev)) (trace r) =
    match regex (priv w) with
    | Some _ => [SignalEmit Regex SEARCH backward]
    | None => []
    end /\
  handle PreviousMatch w = perform_search true w /\
  handle PrevButtonClicked w = perform_search true w /\
  handle NextMatch w = perform_search false w /\
  handle NextButtonClicked w = perform_search false w.
Proof.
  cbv zeta. rewrite perform_search_eq.
  split; [|split; [|repeat split]].
  - destruct w as [[text prev next mc ew rx wa changed cc cm cp [r|]] g];
      [destruct changed|]; reflexivity.
  - destruct (regex (priv w)); [|reflexivity].
    destruct (search_text_changed (priv w)); [|reflexivity].
    cbv zeta. rewrite trace_triple, filter_app.
    rewrite filter_row_events; [reflexivity|].
    apply (history_insert_item_shape Regex).
Qed.

(** *** Notifications *)

Lemma get_property_ext (id : Z) (w w' : World) :
  regex (priv w') = regex (priv w) ->
  wrap_around_checkbutton (priv w') = wrap_around_checkbutton (priv w) ->
  terminal_search_popover_get_property id w' =
  terminal_search_popover_get_property id w.
Proof.
  intros Hr Hw.
  unfold terminal_search_popover_get_property, terminal_search_popover_get_regex,
    terminal_search_popover_get_wrap_around.
  rewrite Hr, Hw. reflexivity.
Qed.

(** What [update_regex] owes its observers. *)
Lemma update_regex_notifies (w : World) :
  wrap_around_checkbutton (priv (state (update_regex w))) =
    wrap_around_checkbutton (priv w) /\
  (regex (priv (state (update_regex w))) = regex (priv w) \/
   In (Notify Regex PROP_REGEX) (trace (update_regex w))) /\
  (forall r, In (RegexUnref Regex r) (trace (update_regex w)) ->
     regex (priv w) = Some r /\ In (Notify Regex PROP_REGEX) (trace (update_regex w))).
Proof.
  destruct (let '(pattern, caseless, multiline) := derive_regex (priv w) in
            regex_is_cached (priv w) pattern caseless multiline) eqn:Hhit.
  - rewrite (update_regex_cached _ _ _ _ w Hhit), state_triple, trace_triple.
    split; [reflexivity|]. split; [left; reflexivity|]. intros r [].
  - rewrite (update_regex_uncached _ _ _ _ w Hhit). cbv zeta.
    destruct (derive_regex (priv w)) as [[pattern c] m].
    rewrite state_triple, trace_triple.
    assert (Hnote : In (Notify Regex PROP_REGEX)
                      (released (priv w) ++
                       match search_entry (priv w) with
                       | EmptyString => []
                       | String _ _ => [RegexNew Regex pattern (compile_flags c m)]
                       end ++ [Notify Regex PROP_REGEX])).
    { apply in_or_app. right. apply in_or_app. right. left. reflexivity. }
    split; [reflexivity|]. split; [right; exact Hnote|].
    intros r HIn. split; [|exact Hnote].
    apply in_app_or in HIn. destruct HIn as [HIn | HIn].
    + unfold released in HIn. destruct (regex (priv w)) as [r'|]; [|destruct HIn].
      destruct HIn as [E | []]. injection E as ->. reflexivity.
    + exfalso. apply in_app_or in HIn. destruct HIn as [HIn | [E | []]];
        [|discriminate E].
      destruct (search_entry (priv w)); [destruct HIn|].
      destruct HIn as [E | []]. discriminate E.
Qed.

(** X9.  No handler changes what a property reads without notifying it:
    if [get_property] gives another value after a handler than before, the
    handler's trace holds the notification of that property.  A matcher is
    released only by a handler that also notifies [regex], and it is the
    matcher that was held.  The properties cannot be written:
    [set_property] leaves every property as it reads, and accepts exactly
    the ids [get_property] knows. *)
Theorem property_change_is_notified (e : UiEvent) (w : World) (id : Z) :
  (terminal_search_popover_get_property id (state (handle e w)) <>
   terminal_search_popover_get_property id w ->
   exists p, prop_number p = id /\ In (Notify Regex p) (trace (handle e w))) /\
  (forall r, In (RegexUnref Regex r) (trace (handle e w)) ->
     terminal_search_popover_get_regex w = Some r /\
     In (Notify Regex PROP_REGEX) (trace (handle e w))) /\
  (forall (value : GValue Regex) (id' : Z),
     terminal_search_popover_get_property id'
       (snd (terminal_search_popover_set_property id value w)) =
     terminal_search_popover_get_property id' w) /\
  (forall value : GValue Regex,
     fst (terminal_search_popover_set_property id value w) = true <->
     terminal_search_popover_get_property id w <> None).
Proof.
  assert (Hquiet : forall s' : World,
            regex (priv s') = regex (priv w) ->
            wrap_around_checkbutton (priv s') = wrap_around_checkbutton (priv w) ->
            forall P : Prop,
              (terminal_search_popover_get_property id s' <>
               terminal_search_popover_get_property id w -> P)).
  { intros s' Hr Hwa P Hneq. exfalso. apply Hneq. apply get_property_ext; assumption. }
  assert (Hupdate : forall (w' s' : World),
            regex (priv w') = regex (priv w) ->
            wrap_around_checkbutton (priv w') = wrap_around_checkbutton (priv w) ->
            regex (priv s') = regex (priv (state (update_regex w'))) ->
            wrap_around_checkbutton (priv s') =
              wrap_around_checkbutton (priv (state (update_regex w'))) ->
            (terminal_search_popover_get_property id s' <>
             terminal_search_popover_get_property id w ->
             exists p, prop_number p = id /\ In (Notify Regex p) (trace (update_regex w'))) /\
            (forall r, In (RegexUnref Regex r) (trace (update_regex w')) ->
               terminal_search_popover_get_regex w = Some r /\
               In (Notify Regex PROP_REGEX) (trace (update_regex w')))).
  { intros w' s' Hr Hwa Hr' Hwa'.
    destruct (update_regex_notifies w') as (Hwrap & Hsame & Hrel).
    split.
    - intros Hneq. destruct (id =? prop_number PROP_REGEX) eqn:Eid.
      + apply Z.eqb_eq in Eid. destruct Hsame as [Hsame | Hnote].
        * exfalso. apply Hneq. apply get_property_ext; congruence.
        * exists PROP_REGEX. split; [symmetry; exact Eid | exact Hnote].
      + exfalso. apply Hneq. unfold terminal_search_popover_get_property.
        rewrite Eid. unfold terminal_search_popover_get_wrap_around.
        rewrite Hwa', Hwrap, Hwa. reflexivity.
    - intros r HIn. destruct (Hrel r HIn) as (Hheld & Hnote).
      split; [|exact Hnote]. unfold terminal_search_popover_get_regex.
      rewrite <- Hr. exact Hheld. }
  assert (Hsearch : forall b,
            (terminal_search_popover_get_property id (state (perform_search b w)) <>
             terminal_search_popover_get_property id w ->
             exists p, prop_number p = id /\
                       In (Notify Regex p) (trace (perform_search b w))) /\
            (forall r, In (RegexUnref Regex r) (trace (perform_search b w)) ->
               terminal_search_popover_get_regex w = Some r /\
               In (Notify Regex PROP_REGEX) (trace (perform_search b w)))).
  { intros b. split.
    - apply Hquiet.
      + rewrite perform_search_eq. destruct (regex (priv w)) eqn:Hr;
          [destruct (search_text_changed (priv w))|]; rewrite state_triple;
          cbn; congruence.
      + rewrite perform_search_eq. destruct (regex (priv w));
          [destruct (search_text_changed (priv w))|]; reflexivity.
    - intros r HIn. exfalso.
      assert (Hzero : releases (trace (perform_search b w)) = 0%nat)
        by apply perform_search_balance.
      unfold releases in Hzero. apply length_zero_iff_nil in Hzero.
      assert (Hin : In (RegexUnref Regex r)
                       (filter (fun ev => match ev with
                                          | RegexUnref _ _ => true
                                          | _ => false
                                          end) (trace (perform_search b w))))
        by (apply filter_In; split; [exact HIn|reflexivity]).
      rewrite Hzero in Hin. destruct Hin. }
  assert (Hupdate1 : forall (w' s' : World),
            regex (priv w') = regex (priv w) ->
            wrap_around_checkbutton (priv w') = wrap_around_checkbutton (priv w) ->
            regex (priv s') = regex (priv (state (update_regex w'))) ->
            wrap_around_checkbutton (priv s') =
              wrap_around_checkbutton (priv (state (update_regex w'))) ->
            terminal_search_popover_get_property id s' <>
            terminal_search_popover_get_property id w ->
            exists p, prop_number p = id /\ In (Notify Regex p) (trace (update_regex w')))
    by (intros w' s' H1 H2 H3 H4; exact (proj1 (Hupdate w' s' H1 H2 H3 H4))).
  assert (Hupdate2 : forall (w' : World),
            regex (priv w') = regex (priv w) ->
            wrap_around_checkbutton (priv w') = wrap_around_checkbutton (priv w) ->
            forall r, In (RegexUnref Regex r) (trace (update_regex w')) ->
              terminal_search_popover_get_regex w = Some r /\
              In (Notify Regex PROP_REGEX) (trace (update_regex w')))
    by (intros w' H1 H2;
        exact (proj2 (Hupdate w' (state (update_regex w')) H1 H2 eq_refl eq_refl))).
  split; [|split; [|split]].
  - destruct e; try apply Hsearch;
      try (apply Hquiet; reflexivity).
    + rewrite handle_search_changed_eq, state_triple, trace_triple.
      apply (Hupdate1 w); reflexivity.
    + rewrite handle_toggle_eq by auto.
      apply (Hupdate1 (mkWorld _ (global w))); reflexivity.
    + rewrite handle_toggle_eq by auto.
      apply (Hupdate1 (mkWorld _ (global w))); reflexivity.
    + rewrite handle_toggle_eq by auto.
      apply (Hupdate1 (mkWorld _ (global w))); reflexivity.
    + intros Hneq. exists PROP_WRAP_AROUND. split; [|left; reflexivity].
      destruct (id =? prop_number PROP_WRAP_AROUND) eqn:Eid;
        [apply Z.eqb_eq in Eid; symmetry; exact Eid|].
      exfalso. apply Hneq. unfold terminal_search_popover_get_property.
      rewrite Eid. reflexivity.
  - destruct e; try apply Hsearch;
      try (intros r HIn; cbn in HIn; exfalso;
           repeat (destruct HIn as [HIn|HIn]; [discriminate HIn|]); exact HIn).
    + rewrite handle_search_changed_eq, trace_triple.
      apply (Hupdate2 w); reflexivity.
    + rewrite handle_toggle_eq by auto.
      apply (Hupdate2 (mkWorld _ (global w))); reflexivity.
    + rewrite handle_toggle_eq by auto.
      apply (Hupdate2 (mkWorld _ (global w))); reflexivity.
    + rewrite handle_toggle_eq by auto.
      apply (Hupdate2 (mkWorld _ (global w))); reflexivity.
  - intros value id'. unfold terminal_search_popover_set_property.
    destruct ((id =? prop_number PROP_REGEX) || (id =? prop_number PROP_WRAP_AROUND));
      reflexivity.
  - intros value.
    unfold terminal_search_popover_set_property, terminal_search_popover_get_property.
    destruct (id =? prop_number PROP_REGEX); [cbn; split; [discriminate|reflexivity]|].
    destruct (id =? prop_number PROP_WRAP_AROUND); cbn; split;
      first [discriminate | reflexivity | intros H; contradiction H; reflexivity].
Qed.

(** *** One commit per change of the text *)

Lemma update_regex_inserts_nothing (w : World) :
  insertions (trace (update_regex w)) = 0%nat.
Proof.
  destruct (update_regex_writes_cache_only w)
    as (_ & _ & [(-> & _) | (call & -> & Hcall)]); [reflexivity|].
  rewrite !(insertions_app Regex). unfold released.
  destruct (regex (priv w)); destruct Hcall as [-> | (pattern & flags & ->)];
    reflexivity.
Qed.

Lemma handle_commits_once (e : UiEvent) (w : World) :
  e <> SearchChanged ->
  (insertions (trace (handle e w)) <= 1)%nat /\
  (search_text_changed (priv (state (handle e w))) = true ->
   insertions (trace (handle e w)) = 0%nat) /\
  (search_text_changed (priv w) = false ->
   insertions (trace (handle e w)) = 0%nat /\
   search_text_changed (priv (state (handle e w))) = false).
Proof.
  intros He.
  assert (Hsearch : forall b,
            (insertions (trace (perform_search b w)) <= 1)%nat /\
            (search_text_changed (priv (state (perform_search b w))) = true ->
             insertions (trace (perform_search b w)) = 0%nat) /\
            (search_text_changed (priv w) = false ->
             insertions (trace (perform_search b w)) = 0%nat /\
             search_text_changed (priv (state (perform_search b w))) = false)).
  { intros b. rewrite perform_search_eq.
    destruct (regex (priv w)).
    - destruct (search_text_changed (priv w)) eqn:Hflag.
      + cbv zeta. rewrite trace_triple, state_triple, (insertions_app Regex).
        pose proof (proj1 (proj2 (proj2 (history_insert_item_shape Regex
                      (Some (search_entry (priv w))) (global w))))) as Hone.
        cbv zeta in Hone. cbn [priv search_text_changed set_search_text_changed].
        split; [cbn; lia|]. split; discriminate.
      + rewrite trace_triple, state_triple. split; [cbn; lia|].
        split; [reflexivity|]. intros _. split; [reflexivity|exact Hflag].
    - rewrite trace_triple, state_triple. split; [cbn; lia|].
      split; [reflexivity|]. intros Hflag. split; [reflexivity|exact Hflag]. }
  assert (Hupdate : forall w' : World,
            search_text_changed (priv w') = search_text_changed (priv w) ->
            (insertions (trace (update_regex w')) <= 1)%nat /\
            (search_text_changed (priv (state (update_regex w'))) = true ->
             insertions (trace (update_regex w')) = 0%nat) /\
            (search_text_changed (priv w) = false ->
             insertions (trace (update_regex w')) = 0%nat /\
             search_text_changed (priv (state (update_regex w'))) = false)).
  { intros w' Hsame. rewrite update_regex_inserts_nothing.
    split; [lia|]. split; [reflexivity|]. intros Hflag. split; [reflexivity|].
    rewrite (proj1 (proj2 (update_regex_frame Regex GError WITH_PCRE2 regex_new w'))).
    rewrite Hsame. exact Hflag. }
  destruct e; try apply Hsearch;
    try (split; [cbn; lia|]; split; [reflexivity|];
         intros Hflag; split; [reflexivity|exact Hflag]).
  - contradiction He. reflexivity.
  - rewrite handle_toggle_eq by auto. apply (Hupdate (mkWorld _ (global w))). reflexivity.
  - rewrite handle_toggle_eq by auto. apply (Hupdate (mkWorld _ (global w))). reflexivity.
  - rewrite handle_toggle_eq by auto. apply (Hupdate (mkWorld _ (global w))). reflexivity.
Qed.

(** X12.  Between two [search-changed] signals the history takes at most
    one text: over any run of handlers without [search-changed], at most one
    row is inserted, and none if the dirty flag was down at the start. *)
Theorem one_commit_per_text_change (es : list UiEvent) (w : World) :
  ~ In SearchChanged es ->
  (insertions (trace (handle_all es w)) <= 1)%nat /\
  (search_text_changed (priv w) = false ->
   insertions (trace (handle_all es w)) = 0%nat).
Proof.
  revert w. induction es as [|e es IH]; intros w Hes.
  - split; [cbn; lia | reflexivity].
  - destruct (handle_all_cons e es w) as (_ & ->).
    rewrite (insertions_app Regex).
    assert (He : e <> SearchChanged) by (intros ->; apply Hes; left; reflexivity).
    assert (Hes' : ~ In SearchChanged es) by (intros HIn; apply Hes; right; exact HIn).
    destruct (handle_commits_once e w He) as (Hone & Hup & Hdown).
    destruct (IH (state (handle e w)) Hes') as (Hrest & Hrest0).
    split.
    + destruct (search_text_changed (priv (state (handle e w)))) eqn:Hflag.
      * rewrite (Hup eq_refl). lia.
      * rewrite (Hrest0 eq_refl). lia.
    + intros Hflag. destruct (Hdown Hflag) as (-> & Hflag').
      rewrite (Hrest0 Hflag'). reflexivity.
Qed.

(** *** A compilation that succeeds *)

(** X13.  When [update_regex] gets to compile a non-empty text and the
    engine accepts the pattern, the matcher held before is released ahead
    of the call, the new matcher and the derived pattern are stored, both
    search buttons become sensitive and [regex] is notified once, last. *)
Theorem update_regex_success
  (w : World) (pattern : string) (caseless multiline : bool) (r : Regex) :
  let flags := compile_flags caseless multiline in
  derive_regex (priv w) = (pattern, caseless, multiline) ->
  regex_is_cached (priv w) pattern caseless multiline = false ->
  search_entry (priv w) <> "" ->
  regex_new pattern flags = inl r ->
  trace (update_regex w) =
    released (priv w) ++ [RegexNew Regex pattern flags; Notify Regex PROP_REGEX] /\
  terminal_search_popover_get_regex (state (update_regex w)) = Some r /\
  regex_pattern (priv (state (update_regex w))) = Some pattern /\
  search_prev_button (priv (state (update_regex w))) = true /\
  search_next_button (priv (state (update_regex w))) = true.
Proof.
  cbv zeta. intros Hderive Hmiss Htext Hok.
  assert (Hmiss' : (let '(pattern, caseless, multiline) := derive_regex (priv w) in
                    regex_is_cached (priv w) pattern caseless multiline) = false)
    by (rewrite Hderive; exact Hmiss).
  rewrite (update_regex_uncached _ _ _ _ w Hmiss'). cbv zeta. rewrite Hderive, Hok.
  destruct (search_entry (priv w)) as [|c t]; [contradiction Htext; reflexivity|].
  repeat split; reflexivity.
Qed.

(** X14.  Whatever the state before, a pattern that is cached when
    [update_regex] returns is the pattern the widgets stand for at that
    moment: the cached string is never stale, on the early return no more
    than after a compilation. *)
Theorem cached_pattern_is_current (w : World) (pattern : string) :
  regex_pattern (priv (state (update_regex w))) = Some pattern ->
  pattern = fst (fst (derive_regex (priv (state (update_regex w))))) /\
  derive_regex (priv (state (update_regex w))) = derive_regex (priv w).
Proof.
  destruct (let '(pattern, caseless, multiline) := derive_regex (priv w) in
            regex_is_cached (priv w) pattern caseless multiline) eqn:Hhit.
  - rewrite (update_regex_cached _ _ _ _ w Hhit), state_triple.
    intros Hcached. split; [|reflexivity].
    destruct (derive_regex (priv w)) as [[p c] m].
    apply (regex_is_cached_iff Regex) in Hhit. destruct Hhit as (_ & _ & Hp).
    rewrite Hp in Hcached. injection Hcached as <-. reflexivity.
  - rewrite (update_regex_uncached _ _ _ _ w Hhit). cbv zeta.
    rewrite !derive_regex_eq.
    rewrite state_triple. cbn [priv regex_pattern search_entry regex_checkbutton
                                 entire_word_checkbutton match_case_checkbutton].
    intros Hcached. split; [|reflexivity].
    destruct (search_entry (priv w)); [discriminate Hcached|].
    destruct (regex_new _ _); [|discriminate Hcached].
    injection Hcached as <-. reflexivity.
Qed.

End PopoverOperations.

(** ** Worked instances of the further properties *)

Lemma history_clamp_keeps_prefix_witness :
  let g := mkGlobal true (Some [Some "aaaa"; Some "bbbb"; Some "cccc"; Some "dddd"]) in
  0 < 3 /\
  history_rows (state (history_clamp Demo.Regex 3 g)) = [Some "aaaa"; Some "bbbb"] /\
  trace (history_clamp Demo.Regex 3 g) =
    [RowDeleted Demo.Regex 2%nat; RowDeleted Demo.Regex 2%nat].
Proof.
  intros g. assert (Hmax : 0 < 3) by reflexivity.
  split; [exact Hmax|].
  destruct (history_clamp_keeps_prefix Demo.Regex 3 g Hmax) as (Hrows & Htrace & _).
  split; [exact Hrows | exact Htrace].
Defined.

Lemma history_remove_item_first_match_witness :
  let g := mkGlobal true (Some [Some "aaaa"; Some "bbbb"; Some "aaaa"; Some "bbbb"]) in
  (history_rows g = [Some "aaaa"] ++ Some "bbbb" :: [Some "aaaa"; Some "bbbb"] /\
   ~ In (Some "bbbb") [Some "aaaa"] /\
   ~ In (Some "cccc") (history_rows g)) /\
  (history_rows (state (history_remove_item Demo.Regex "bbbb" g)) =
     [Some "aaaa"; Some "aaaa"; Some "bbbb"] /\
   trace (history_remove_item Demo.Regex "bbbb" g) = [RowDeleted Demo.Regex 1%nat]) /\
  history_remove_item Demo.Regex "cccc" g = (false, g, []).
Proof.
  intros g.
  assert (Hpre : ~ In (Some "bbbb") [Some "aaaa"])
    by (intros [H|[]]; discriminate H).
  assert (Hout : ~ In (Some "cccc") (history_rows g)).
  { intros H. vm_compute in H.
    repeat (destruct H as [H|H]; [discriminate H|]). exact H. }
  split; [repeat split; [exact Hpre | exact Hout]|].
  split.
  - exact (proj1 (proj2 (history_remove_item_first_match Demo.Regex "bbbb" g))
             [Some "aaaa"] [Some "aaaa"; Some "bbbb"] eq_refl Hpre).
  - exact (proj2 (proj2 (history_remove_item_first_match Demo.Regex "cccc" g)) Hout).
Defined.

Lemma history_insert_item_idempotent_witness :
  let g := mkGlobal true (Some [Some "hello"; Some "world"]) in
  let once := state (history_insert_item Demo.Regex (Some "world") g) in
  (gtk_recent_files_enabled g = true /\ HISTORY_MIN_ITEM_LEN < g_utf8_strlen "world") /\
  history_rows (state (history_insert_item Demo.Regex (Some "world") once)) =
    history_rows once /\
  history_find "world" (history_rows once) 0%nat = Some 0%nat.
Proof.
  intros g once.
  destruct (history_insert_item_idempotent Demo.Regex (Some "world") g)
    as (Hsame & Hfound).
  split; [split; reflexivity|].
  split; [exact Hsame|].
  exact (Hfound "world" eq_refl eq_refl eq_refl).
Defined.

Lemma history_disabled_no_store_witness :
  let es := [EntryEdited "abcd"; SearchChanged; NextMatch;
             RecentFilesEnabled false; PrevButtonClicked] in
  let r := Demo.handle_all es (fresh_world Demo.Regex false false false false false) in
  ~ In (RecentFilesEnabled true) es /\
  history_store (global (state r)) = None /\
  gtk_recent_files_enabled (global (state r)) = false /\
  Forall (fun ev => is_row_event ev = false) (trace r).
Proof.
  intros es r.
  assert (Hes : ~ In (RecentFilesEnabled true) es).
  { intros H. repeat (destruct H as [H|H]; [discriminate H|]). exact H. }
  split; [exact Hes|].
  exact (history_disabled_no_store Demo.Regex Demo.GError false Demo.regex_new
           false false false false es Hes).
Defined.

Lemma search_buttons_follow_regex_witness :
  let w := state (Demo.handle_all [EntryEdited "abcd"; SearchChanged] Demo.fresh) in
  (search_prev_button (priv w) = true /\
   search_prev_button (priv Demo.fresh) = false) /\
  (exists t, trace (perform_search Demo.Regex true w) =
               t ++ [SignalEmit Demo.Regex SEARCH true]) /\
  perform_search Demo.Regex true Demo.fresh = (tt, Demo.fresh, []).
Proof.
  intros w. split; [split; reflexivity|]. split.
  - exact (proj1 (proj2 (proj2
             (search_buttons_follow_regex Demo.Regex Demo.GError false Demo.regex_new
                false false false false true
                [EntryEdited "abcd"; SearchChanged] true))) eq_refl).
  - exact (proj2 (proj2 (proj2
             (search_buttons_follow_regex Demo.Regex Demo.GError false Demo.regex_new
                false false false false true [] true))) eq_refl).
Defined.

Lemma matcher_comes_from_cached_pattern_witness :
  let w := state (Demo.handle_all [EntryEdited "abcd"; SearchChanged] Demo.fresh) in
  regex (priv w) = Some ("abcd", [OPTIMIZE; CASELESS]) /\
  exists pattern caseless multiline,
    regex_pattern (priv w) = Some pattern /\
    Demo.regex_new pattern (compile_flags false caseless multiline) =
      inl ("abcd", [OPTIMIZE; CASELESS]).
Proof.
  intros w. split; [reflexivity|].
  exact (proj2 (matcher_comes_from_cached_pattern
                  Demo.Regex Demo.GError false Demo.regex_new
                  false false false false true
                  [EntryEdited "abcd"; SearchChanged])
           ("abcd", [OPTIMIZE; CASELESS]) eq_refl).
Defined.

Lemma matcher_references_balance_witness :
  let r := Demo.handle_all
             [EntryEdited "abcd"; SearchChanged; MatchCaseToggled;
              EntryEdited "(ab"; SearchChanged; EntryEdited "abc"; SearchChanged]
             Demo.fresh in
  let f := terminal_search_popover_finalize Demo.Regex (state r) in
  regex (priv Demo.fresh) = None /\
  acquisitions Demo.regex_new (trace r ++ trace f) = releases (trace r ++ trace f).
Proof.
  intros r f. split; [reflexivity|].
  exact (proj2 (matcher_references_balance Demo.Regex Demo.GError false Demo.regex_new
                  [EntryEdited "abcd"; SearchChanged; MatchCaseToggled;
                   EntryEdited "(ab"; SearchChanged; EntryEdited "abc"; SearchChanged]
                  Demo.fresh) eq_refl).
Defined.

Lemma property_change_is_notified_witness :
  let w : Demo.World :=
    mkWorld (mkPriv "abcd" false false false false false false false false false None None)
            (mkGlobal true (Some [])) in
  let r := handle Demo.Regex Demo.GError false Demo.regex_new SearchChanged w in
  terminal_search_popover_get_property Demo.Regex 1 (state r) <>
    terminal_search_popover_get_property Demo.Regex 1 w /\
  exists p, prop_number p = 1 /\ In (Notify Demo.Regex p) (trace r).
Proof.
  intros w r.
  assert (Hneq : terminal_search_popover_get_property Demo.Regex 1 (state r) <>
                 terminal_search_popover_get_property Demo.Regex 1 w)
    by (vm_compute; intros H; discriminate H).
  split; [exact Hneq|].
  exact (proj1 (property_change_is_notified Demo.Regex Demo.GError false Demo.regex_new
                  SearchChanged w 1) Hneq).
Defined.

Lemma one_commit_per_text_change_witness :
  let w := state (Demo.handle_all [EntryEdited "abcd"; SearchChanged] Demo.fresh) in
  let es := [NextMatch; EntryEdited "abcde"; NextMatch; MatchCaseToggled; PreviousMatch] in
  ~ In SearchChanged es /\
  (insertions (trace (Demo.handle_all es w)) <= 1)%nat.
Proof.
  intros w es.
  assert (Hes : ~ In SearchChanged es).
  { intros H. repeat (destruct H as [H|H]; [discriminate H|]). exact H. }
  split; [exact Hes|].
  exact (proj1 (one_commit_per_text_change Demo.Regex Demo.GError false Demo.regex_new
                  es w Hes)).
Defined.

Lemma update_regex_success_witness :
  let w : Demo.World :=
    mkWorld (mkPriv "abcd" false false false false false false false false false None None)
            (mkGlobal true (Some [])) in
  (derive_regex Demo.Regex (priv w) = ("abcd", true, false) /\
   regex_is_cached Demo.Regex (priv w) "abcd" true false = false /\
   search_entry (priv w) <> "" /\
   Demo.regex_new "abcd" [OPTIMIZE; CASELESS] = inl ("abcd", [OPTIMIZE; CASELESS])) /\
  trace (Demo.update_regex w) =
    [RegexNew Demo.Regex "abcd" [OPTIMIZE; CASELESS]; Notify Demo.Regex PROP_REGEX] /\
  terminal_search_popover_get_regex Demo.Regex (state (Demo.update_regex w)) =
    Some ("abcd", [OPTIMIZE; CASELESS]) /\
  regex_pattern (priv (state (Demo.update_regex w))) = Some "abcd" /\
  search_prev_button (priv (state (Demo.update_regex w))) = true /\
  search_next_button (priv (state (Demo.update_regex w))) = true.
Proof.
  intros w. split; [repeat split; try reflexivity; discriminate|].
  apply (update_regex_success Demo.Regex Demo.GError false Demo.regex_new
           w "abcd" true false ("abcd", [OPTIMIZE; CASELESS]));
    first [reflexivity | discriminate].
Defined.

Lemma cached_pattern_is_current_witness :
  let w : Demo.World :=
    mkWorld (mkPriv "a.b" false false false true false false false false false None None)
            (mkGlobal true (Some [])) in
  regex_pattern (priv (state (Demo.update_regex w))) = Some "\ba\.b\b" /\
  "\ba\.b\b" = fst (fst (derive_regex Demo.Regex (priv (state (Demo.update_regex w))))).
Proof.
  intros w. split; [reflexivity|].
  exact (proj1 (cached_pattern_is_current Demo.Regex Demo.GError false Demo.regex_new
                  w "\ba\.b\b" eq_refl)).
Defined.
